(** * cpumemplt: the process selector and the bounded sampling loop

    A shallow embedding of [src/main.py]: the process lister
    ([list_processes]), the interactive two-process selector
    ([process_selector]) with what it draws, the prompts ([prompt_label],
    [label_wrapper]), the metrics probe ([get_metrics]) and the sampling
    loop of [main] with its five bounded deques.

    Conventions of the model.
    - A Python [str] is a list of characters; the character type is
      [ascii], so the model covers the code points 0..255.
    - A Python [int] is a [Z]; a Python [float] is a binary64 value of
      [SpecFloat.spec_float].
    - A computation that can raise is a [result]: [Ok v] or [Raise e].
    - Screen output of curses and matplotlib is not modelled; the values
      the code computes for it (clamped cursor, viewport) are. *)

From Stdlib Require Import ZArith Ascii String DecimalString DecimalPos SpecFloat Sorted.
From stdpp Require Import base tactics option numbers list strings sorting.

Local Open Scope Z_scope.

(** ** Python strings *)

Module PyStr.

Definition str := list ascii.

(** A literal, written as a Rocq string. *)
Definition lit (s : string) : str := list_ascii_of_string s.

Definition code (c : ascii) : Z := Z.of_nat (nat_of_ascii c).

(** [chr(n)] for a code point below 256. *)
Definition chr (n : Z) : ascii := ascii_of_nat (Z.to_nat n).

(** [c.lower()] on one character: A-Z and the upper-case letters of
    Latin-1 (U+00C0..U+00DE without the multiplication sign U+00D7) move
    up by 32; every other character is unchanged. *)
Definition lower_char (c : ascii) : ascii :=
  let n := code c in
  if ((65 <=? n) && (n <=? 90)) ||
     ((192 <=? n) && (n <=? 222) && negb (n =? 215))
  then chr (n + 32) else c.

(** [s.lower()]. *)
Definition lower (s : str) : str := map lower_char s.

(** [s.startswith(needle)]. *)
Fixpoint starts_with (needle s : str) : bool :=
  match needle, s with
  | [], _ => true
  | _ :: _, [] => false
  | a :: needle', b :: s' => Ascii.eqb a b && starts_with needle' s'
  end.

(** [needle in s] on strings: [needle] occurs in [s] as a substring. *)
Fixpoint contains (needle s : str) : bool :=
  starts_with needle s ||
  match s with
  | [] => false
  | _ :: s' => contains needle s'
  end.

(** [str(n)] for an int: decimal digits, with a leading minus sign for a
    negative number. *)
Definition py_str (n : Z) : str :=
  list_ascii_of_string (NilEmpty.string_of_int (Z.to_int n)).

(** The characters [str.strip()] and [str.split()] treat as white space. *)
Definition is_space (c : ascii) : bool :=
  let n := code c in
  ((9 <=? n) && (n <=? 13)) || ((28 <=? n) && (n <=? 32)) ||
  (n =? 133) || (n =? 160).

Fixpoint lstrip (s : str) : str :=
  match s with
  | c :: s' => if is_space c then lstrip s' else s
  | [] => []
  end.

Definition rstrip (s : str) : str := rev (lstrip (rev s)).

(** [s.strip()]. *)
Definition strip (s : str) : str := rstrip (lstrip s).

(** [s.split()] with no argument: the maximal runs of characters that are
    not white space. [cur] is the run being read, in reverse. *)
Fixpoint split_aux (cur : str) (s : str) : list str :=
  match s with
  | [] => match cur with [] => [] | _ => [rev cur] end
  | c :: s' =>
      if is_space c
      then match cur with
           | [] => split_aux [] s'
           | _ => rev cur :: split_aux [] s'
           end
      else split_aux (c :: cur) s'
  end.

Definition split (s : str) : list str := split_aux [] s.

(** [s[:-1]]: all but the last character; the empty string stays empty. *)
Definition drop_last (s : str) : str := take (length s - 1)%nat s.

Definition is_digit (c : ascii) : bool :=
  let n := code c in (48 <=? n) && (n <=? 57).

Definition digit_value (c : ascii) : Z := code c - 48.

End PyStr.

Import PyStr.

(** ** The selector: filtered view *)

(** A candidate is the tuple [(pid, comm, args)] of [list_processes]. *)
Definition proc : Type := Z * str * str.

Definition pid_of (p : proc) : Z := p.1.1.
Definition comm_of (p : proc) : str := p.1.2.
Definition args_of (p : proc) : str := p.2.

(** The condition of the list comprehension of [process_selector], for the
    lowered filter text [ft]. *)
Definition matches (ft : str) (p : proc) : bool :=
  contains ft (lower (comm_of p)) ||
  contains ft (lower (args_of p)) ||
  contains ft (py_str (pid_of p)).

(** [view], recomputed at the top of every loop iteration. *)
Definition filtered_view (procs : list proc) (filter_text : str) : list proc :=
  let ft := lower filter_text in
  List.filter (matches ft) procs.

(** *** The words of the specification *)

(** Two strings are equal up to the case of their letters. *)
Definition eq_ignoring_case (a b : str) : Prop :=
  Forall2 (fun x y => lower_char x = lower_char y) a b.

(** [F] occurs in [s] as a case-insensitive substring: some substring of
    [s] equals [F] up to case. *)
Definition contains_ci (F s : str) : Prop :=
  exists pre mid post, s = pre ++ mid ++ post /\ eq_ignoring_case F mid.

(** A candidate matches the filter [F]: its short name, its full command
    or its identifier in decimal contains [F] case-insensitively. *)
Definition spec_match (F : str) (p : proc) : Prop :=
  contains_ci F (comm_of p) \/ contains_ci F (args_of p) \/
  contains_ci F (py_str (pid_of p)).

(** ** Exceptions and results *)

(** The exceptions the modelled code can meet. [SystemExit] and
    [KeyboardInterrupt] derive from [BaseException] only; the others are
    subclasses of [Exception]. *)
Inductive exn :=
  | SystemExit (status : Z)
  | KeyboardInterrupt
  | ValueError
  | IndexError
  | OverflowError
  | CalledProcessError (returncode : Z)
  | OSError.

Definition is_Exception (e : exn) : bool :=
  match e with
  | SystemExit _ | KeyboardInterrupt => false
  | _ => true
  end.

Inductive result (A : Type) :=
  | Ok (a : A)
  | Raise (e : exn).
Arguments Ok {A} a.
Arguments Raise {A} e.

Definition bind {A B} (r : result A) (k : A -> result B) : result B :=
  match r with
  | Ok a => k a
  | Raise e => Raise e
  end.

Notation "x <- r ;; k" := (bind r (fun x => k))
  (at level 100, r at next level, right associativity).

(** [try: body except Exception: handler]. *)
Definition try_except_Exception {A} (body handler : result A) : result A :=
  match body with
  | Ok a => Ok a
  | Raise e => if is_Exception e then handler else Raise e
  end.

Definition of_option {A} (o : option A) (e : exn) : result A :=
  match o with
  | Some a => Ok a
  | None => Raise e
  end.

(** [l[i]] on a list: a negative index counts from the end, an index out
    of range raises [IndexError]. *)
Definition py_index {A} (l : list A) (i : Z) : result A :=
  let n := Z.of_nat (length l) in
  let j := if i <? 0 then i + n else i in
  if (0 <=? j) && (j <? n) then of_option (l !! Z.to_nat j) IndexError
  else Raise IndexError.

(** ** The selector state machine *)

(** The local variables of [process_selector] that live across loop
    iterations. *)
Record selector_state := {
  filter_text : str;
  idx : Z;
  selected : list proc
}.

Definition init_state : selector_state :=
  {| filter_text := []; idx := 0; selected := [] |}.

(** Key codes of curses (the values of ncurses' [curses.h]). *)
Definition KEY_DOWN : Z := 258.
Definition KEY_UP : Z := 259.
Definition KEY_BACKSPACE : Z := 263.

(** [ord(c)]. *)
Definition ord (c : ascii) : Z := code c.

(** The re-clamping at the top of the loop:
    [if not view: idx = 0 else: idx = max(0, min(idx, len(view) - 1))]. *)
Definition clamp_idx (view : list proc) (i : Z) : Z :=
  match view with
  | [] => 0
  | _ => Z.max 0 (Z.min i (Z.of_nat (length view) - 1))
  end.

(** The state as it is drawn: the cursor clamped against the current
    view. *)
Definition present (procs : list proc) (st : selector_state) : selector_state :=
  {| filter_text := filter_text st;
     idx := clamp_idx (filtered_view procs (filter_text st)) (idx st);
     selected := selected st |}.

(** The rows drawn: [(top, bottom)] for a terminal of [h] lines, a view of
    [len] entries and the cursor [i]. *)
Definition viewport (h len i : Z) : Z * Z :=
  let start_row := 4 in
  let max_rows := h - start_row - 1 in
  let top := Z.max 0 (i - max_rows / 2) in
  let bottom := Z.min len (top + max_rows) in
  let top := Z.max 0 (bottom - max_rows) in
  (top, bottom).

(** How an iteration ends: the loop goes on with a new state, or
    [process_selector] returns the selection. *)
Inductive flow :=
  | Next (st : selector_state)
  | Return (sel : list proc).

(** The selection after Enter on [chosen]. *)
Definition select (chosen : proc) (sel : list proc) : list proc :=
  if bool_decide (chosen ∈ sel) then sel else sel ++ [chosen].

(** The [if]/[elif] chain on the key [ch], for the view and the state of
    this iteration ([st] has the clamped cursor). *)
Definition handle_key (view : list proc) (st : selector_state) (ch : Z)
  : result flow :=
  if (ch =? ord "q") || (ch =? ord "Q") then Raise (SystemExit 0)
  else if ch =? KEY_UP then
    Ok (Next {| filter_text := filter_text st; idx := idx st - 1;
                selected := selected st |})
  else if ch =? KEY_DOWN then
    Ok (Next {| filter_text := filter_text st; idx := idx st + 1;
                selected := selected st |})
  else if (ch =? KEY_BACKSPACE) || (ch =? 127) || (ch =? 8) then
    Ok (Next {| filter_text := drop_last (filter_text st); idx := 0;
                selected := selected st |})
  else if (ch =? 10) || (ch =? 13) then
    match view with
    | [] => Ok (Next st)
    | _ =>
        chosen <- py_index view (idx st);;
        let sel := select chosen (selected st) in
        if (length sel =? 2)%nat then Ok (Return sel)
        else Ok (Next {| filter_text := filter_text st; idx := idx st;
                         selected := sel |})
    end
  else if (32 <=? ch) && (ch <=? 126) then
    Ok (Next {| filter_text := filter_text st ++ [chr ch]; idx := 0;
                selected := selected st |})
  else Ok (Next st).

(** One iteration of [while True]: recompute the view, clamp the cursor,
    draw, read the key [ch], act on it. *)
Definition iteration (procs : list proc) (st : selector_state) (ch : Z)
  : result flow :=
  let view := filtered_view procs (filter_text st) in
  handle_key view (present procs st) ch.

(** The loop on the keys [getch] delivers. With the keys used up and no
    return yet, the loop is waiting at its top in the state given. *)
Fixpoint run (procs : list proc) (keys : list Z) (st : selector_state)
  : result flow :=
  match keys with
  | [] => Ok (Next st)
  | ch :: keys' =>
      match iteration procs st ch with
      | Ok (Next st') => run procs keys' st'
      | r => r
      end
  end.

(** The states drawn during [run]: one per iteration begun, and the one
    of the iteration waiting for its key. *)
Fixpoint presented (procs : list proc) (keys : list Z) (st : selector_state)
  : list selector_state :=
  present procs st ::
  match keys with
  | [] => []
  | ch :: keys' =>
      match iteration procs st ch with
      | Ok (Next st') => presented procs keys' st'
      | _ => []
      end
  end.

(** [process_selector] on a candidate list and a key sequence. *)
Definition process_selector (procs : list proc) (keys : list Z) : result flow :=
  run procs keys init_state.

(** What the specification asks of a drawn cursor. *)
Definition cursor_ok (procs : list proc) (st : selector_state) : Prop :=
  let view := filtered_view procs (filter_text st) in
  match view with
  | [] => idx st = 0
  | _ => 0 <= idx st <= Z.of_nat (length view) - 1
  end.

Definition is_enter (ch : Z) : Prop := ch = 10 \/ ch = 13.
Definition is_backspace (ch : Z) : Prop :=
  ch = KEY_BACKSPACE \/ ch = 127 \/ ch = 8.
Definition is_quit (ch : Z) : Prop := ch = ord "q" \/ ch = ord "Q".
(** The range the last [elif] tests: the printable characters of ASCII. *)
Definition is_printable (ch : Z) : Prop := 32 <= ch <= 126.

(** ** Python numbers *)

Module PyNum.

(** A Python float: an IEEE 754 binary64 value. *)
Definition float : Type := spec_float.
Definition prec : Z := 53.
Definition emax : Z := 1024.

(** [math.nan]. *)
Definition nan : float := S754_nan.

(** The nearest float of the number [m * 2^e] (ties to even). *)
Definition round_float (m e : Z) : float := binary_normalize prec emax m e false.

(** The conversion of an int operand to float; an int beyond the range
    of the floats raises [OverflowError]. *)
Definition float_of_int (n : Z) : result float :=
  match round_float n 0 with
  | S754_infinity _ => Raise OverflowError
  | x => Ok x
  end.

(** The literal [1024.0]. *)
Definition f1024 : float := round_float 1024 0.

(** [n / 1024.0] for an int [n]. *)
Definition div_1024 (n : Z) : result float :=
  x <- float_of_int n;;
  Ok (SFdiv prec emax x f1024).

(** White space as [int()] and [float()] strip it from both ends. *)
Definition is_num_space (c : ascii) : bool :=
  let n := code c in
  ((9 <=? n) && (n <=? 13)) || (n =? 32) || (n =? 133) || (n =? 160).

Fixpoint lstrip_num (s : str) : str :=
  match s with
  | c :: s' => if is_num_space c then lstrip_num s' else s
  | [] => []
  end.

Definition strip_num (s : str) : str := rev (lstrip_num (rev (lstrip_num s))).

Definition is_underscore (c : ascii) : bool := code c =? 95.

(** The digits of an int literal in base 10: at least one digit, single
    underscores allowed between digits only. [prev] is the character
    just read, [acc] the value so far. *)
Fixpoint int_digits (prev : option ascii) (acc : Z) (s : str) : option Z :=
  match s with
  | [] =>
      match prev with
      | Some p => if is_digit p then Some acc else None
      | None => None
      end
  | c :: s' =>
      if is_digit c then int_digits (Some c) (10 * acc + digit_value c) s'
      else if is_underscore c then
        match prev with
        | Some p => if is_digit p then int_digits (Some c) acc s' else None
        | None => None
        end
      else None
  end.

(** An optional sign: whether it is a minus, and the rest. *)
Definition read_sign (s : str) : bool * str :=
  match s with
  | c :: s' =>
      if code c =? 45 then (true, s')
      else if code c =? 43 then (false, s')
      else (false, s)
  | [] => (false, [])
  end.

(** [int(s)] for a string; [ValueError] on anything but an optionally
    signed decimal literal. The interpreter's limit on the number of
    digits of such a literal ([sys.set_int_max_str_digits]) is not
    modelled: ints are unbounded. *)
Definition py_int (s : str) : result Z :=
  let '(neg, digits) := read_sign (strip_num s) in
  match int_digits None 0 digits with
  | Some n => Ok (if neg then - n else n)
  | None => Raise ValueError
  end.

(** The underscores of a float literal: each stands between two digits;
    the result is the literal without them. [prev] is the character just
    read. *)
Fixpoint remove_underscores (prev : option ascii) (s : str) : option str :=
  match s with
  | [] =>
      match prev with
      | Some p => if is_underscore p then None else Some []
      | None => Some []
      end
  | c :: s' =>
      if is_underscore c then
        match prev with
        | Some p => if is_digit p then remove_underscores (Some c) s' else None
        | None => None
        end
      else
        match prev with
        | Some p =>
            if is_underscore p && negb (is_digit c) then None
            else cons c <$> remove_underscores (Some c) s'
        | None => cons c <$> remove_underscores (Some c) s'
        end
  end.

(** The longest run of digits at the head of [s]: the value of [acc]
    followed by them, their number, and the rest. *)
Fixpoint take_digits (acc count : Z) (s : str) : Z * Z * str :=
  match s with
  | c :: s' =>
      if is_digit c then take_digits (10 * acc + digit_value c) (count + 1) s'
      else (acc, count, s)
  | [] => (acc, count, [])
  end.

(** An unsigned decimal literal [digits [. digits] [e [sign] digits]] with
    at least one digit before the exponent: [(m, e)] for the number
    [m * 10^e]. *)
Definition parse_decimal (s : str) : option (Z * Z) :=
  let '(ip, n1, r1) := take_digits 0 0 s in
  let '(m, n2, r2) :=
    match r1 with
    | c :: r => if code c =? 46 then take_digits ip 0 r else (ip, 0, r1)
    | [] => (ip, 0, r1)
    end in
  if n1 + n2 =? 0 then None
  else
    match r2 with
    | [] => Some (m, - n2)
    | c :: r3 =>
        if (code c =? 101) || (code c =? 69) then
          let '(neg, r4) := read_sign r3 in
          let '(ev, n3, r5) := take_digits 0 0 r4 in
          match r5 with
          | [] => if n3 =? 0 then None
                  else Some (m, (if neg then - ev else ev) - n2)
          | _ => None
          end
        else None
    end.

(** The float nearest to [m * 10^e] for [m >= 0], with the sign [neg].
    For a negative [e] the quotient is taken with 64 bits or more and a
    sticky bit for the remainder, so that the rounding is the one of the
    exact value. *)
Definition float_of_decimal (neg : bool) (m e : Z) : float :=
  if m =? 0 then S754_zero neg
  else
    let sm := if neg then - m else m in
    if 0 <=? e then round_float (sm * 10 ^ e) 0
    else
      let den := 10 ^ (- e) in
      let s := Z.max 0 (Z.log2 den - Z.log2 m + 66) in
      let q := (m * 2 ^ s) / den in
      let sticky := if (m * 2 ^ s) mod den =? 0 then 0 else 1 in
      let mq := 2 * q + sticky in
      round_float (if neg then - mq else mq) (- s - 1).

(** [float(s)] for a string: [inf], [infinity] and [nan] in any case, or
    a decimal literal, with an optional sign; [ValueError] otherwise. *)
Definition py_float (s : str) : result float :=
  let s1 := strip_num s in
  match remove_underscores None s1 with
  | None => Raise ValueError
  | Some s2 =>
      let '(neg, body) := read_sign s2 in
      let word := lower body in
      if bool_decide (word = lit "inf") || bool_decide (word = lit "infinity")
      then Ok (S754_infinity neg)
      else if bool_decide (word = lit "nan") then Ok nan
      else
        match parse_decimal body with
        | Some (m, e) => Ok (float_of_decimal neg m e)
        | None => Raise ValueError
        end
  end.

End PyNum.

Import PyNum.

(** ** Bounded deques *)

(** [collections.deque(maxlen=n)] of the Python library: a list with a
    bound on its length. *)
Record deque (A : Type) := {
  maxlen : Z;
  items : list A
}.
Arguments maxlen {A} d.
Arguments items {A} d.

(** [deque(maxlen=n)]: empty; a negative bound raises [ValueError]. *)
Definition deque_new {A} (n : Z) : result (deque A) :=
  if n <? 0 then Raise ValueError
  else Ok {| maxlen := n; items := [] |}.

(** [d.append(x)]: [x] goes to the right end; when that exceeds the
    bound, the leftmost item is dropped. *)
Definition deque_append {A} (x : A) (d : deque A) : deque A :=
  let l := items d ++ [x] in
  {| maxlen := maxlen d;
     items := if maxlen d <? Z.of_nat (length l) then drop 1 l else l |}.

(** Successive appends, first element first. *)
Definition deque_extend {A} (xs : list A) (d : deque A) : deque A :=
  foldl (fun d x => deque_append x d) d xs.

(** ** The metrics probe *)

(** [get_metrics(pid)]. The environment is [ps]: what
    [subprocess.check_output] does for the command
    [ps -p <arg> -o %cpu=,rss=], either the text of its output or the
    exception it raises. *)
Definition get_metrics (ps : str -> result str) (pid : Z)
  : result (option (float * float)) :=
  try_except_Exception
    (out <- ps (py_str pid);;
     let out := strip out in
     match out with
     | [] => Ok None
     | _ =>
         match split out with
         | [cpu_s; rss_s] =>
             cpu <- py_float cpu_s;;
             rss_kb <- py_int rss_s;;
             mb <- div_1024 rss_kb;;
             Ok (Some (cpu, mb))
         | _ => Raise ValueError
         end
     end)
    (Ok None).

(** ** The prompts for interval and window *)

(** [s or default] on strings. *)
Definition str_or (s default : str) : str :=
  match s with
  | [] => default
  | _ => s
  end.

(** The two numeric prompts of [label_wrapper]: the texts the operator
    typed, and the [(interval, window)] of the tuple returned. *)
Definition label_wrapper (interval_input window_input : str)
  : result (float * Z) :=
  let interval_s := str_or (strip interval_input) (lit "1.0") in
  let window_s := str_or (strip window_input) (lit "120") in
  interval <- py_float interval_s;;
  window <- py_int window_s;;
  Ok (interval, window).

(** ** The sampling loop *)

(** The five deques of [main]. *)
Record series := {
  t : deque float;
  cpu1 : deque float;
  cpu2 : deque float;
  mem1 : deque float;
  mem2 : deque float
}.

(** The deques as [main] creates them for the window [window]. *)
Definition series_new (window : Z) : result series :=
  t0 <- deque_new window;;
  c1 <- deque_new window;;
  c2 <- deque_new window;;
  r1 <- deque_new window;;
  r2 <- deque_new window;;
  Ok {| t := t0; cpu1 := c1; cpu2 := c2; mem1 := r1; mem2 := r2 |}.

(** [m if m else (math.nan, math.nan)]: [None] is false, a pair is true. *)
Definition sample_of (m : option (float * float)) : float * float :=
  match m with
  | Some p => p
  | None => (nan, nan)
  end.

(** What one tick meets: the elapsed time read, and the process table at
    each of the two probes. *)
Record tick_input := {
  now : float;
  ps1 : str -> result str;
  ps2 : str -> result str
}.

(** The body of the sampling loop up to the appends, for the processes
    [pid1] and [pid2]. *)
Definition tick (pid1 pid2 : Z) (i : tick_input) (s : series) : result series :=
  m1 <- get_metrics (ps1 i) pid1;;
  m2 <- get_metrics (ps2 i) pid2;;
  let '(c1, r1) := sample_of m1 in
  let '(c2, r2) := sample_of m2 in
  Ok {| t := deque_append (now i) (t s);
        cpu1 := deque_append c1 (cpu1 s);
        cpu2 := deque_append c2 (cpu2 s);
        mem1 := deque_append r1 (mem1 s);
        mem2 := deque_append r2 (mem2 s) |}.

(** The loop over the ticks of [inputs]. *)
Fixpoint run_ticks (pid1 pid2 : Z) (inputs : list tick_input) (s : series)
  : result series :=
  match inputs with
  | [] => Ok s
  | i :: inputs' =>
      s' <- tick pid1 pid2 i s;;
      run_ticks pid1 pid2 inputs' s'
  end.

(** A probe outcome that is not the operator's interrupt: output, or an
    exception of class [Exception]. *)
Definition query_result (r : result str) : Prop :=
  match r with
  | Ok _ => True
  | Raise e => is_Exception e = true
  end.

(** The two samples a tick computes, [(c1, r1)] and [(c2, r2)]. *)
Definition tick_samples (pid1 pid2 : Z) (i : tick_input)
  : result ((float * float) * (float * float)) :=
  m1 <- get_metrics (ps1 i) pid1;;
  m2 <- get_metrics (ps2 i) pid2;;
  Ok (sample_of m1, sample_of m2).

(** The five appends of a tick, for the time [x] and the samples [p1] and
    [p2]. *)
Definition append_samples (x : float) (p1 p2 : float * float) (s : series)
  : series :=
  {| t := deque_append x (t s);
     cpu1 := deque_append p1.1 (cpu1 s);
     cpu2 := deque_append p2.1 (cpu2 s);
     mem1 := deque_append p1.2 (mem1 s);
     mem2 := deque_append p2.2 (mem2 s) |}.

(** Neither probe of the tick is cut by the operator's interrupt. *)
Definition no_interrupt (pid1 pid2 : Z) (i : tick_input) : Prop :=
  query_result (ps1 i (py_str pid1)) /\ query_result (ps2 i (py_str pid2)).

(** The [n] most recent elements of a history, oldest first. *)
Definition most_recent {A} (n : nat) (l : list A) : list A :=
  drop (length l - n) l.

(** All five deques have the length [n]. *)
Definition all_lengths (s : series) (n : nat) : Prop :=
  length (items (t s)) = n /\
  length (items (cpu1 s)) = n /\ length (items (cpu2 s)) = n /\
  length (items (mem1 s)) = n /\ length (items (mem2 s)) = n.

(** A process table that answers every probe with the text [out]. *)
Definition ps_prints (out : string) : str -> result str :=
  fun _ => Ok (lit out).

(** A process table in which the process is gone: [ps] exits with
    status 1. *)
Definition ps_fails : str -> result str :=
  fun _ => Raise (CalledProcessError 1).

(** Four ticks in which the first process has the resident sizes
    102400, 112640, 122880 and 133120 kB: 100, 110, 120 and 130 MB. *)
Definition four_ticks : list tick_input :=
  [ {| now := round_float 0 0; ps1 := ps_prints "0.0 102400"; ps2 := ps_fails |};
    {| now := round_float 1 0; ps1 := ps_prints "0.0 112640"; ps2 := ps_fails |};
    {| now := round_float 2 0; ps1 := ps_prints "0.0 122880"; ps2 := ps_fails |};
    {| now := round_float 3 0; ps1 := ps_prints "0.0 133120"; ps2 := ps_fails |} ].

(** Five ticks in which the first process is gone and the second one
    reports 1.5 percent and 2048 kB. *)
Definition five_ticks_one_gone : list tick_input :=
  replicate 5 {| now := round_float 0 0; ps1 := ps_fails;
                 ps2 := ps_prints "1.5 2048" |}.

(** The candidates of the scenario of the specification. *)
Definition p10 : proc := (10, lit "a", lit "a").
Definition p20 : proc := (20, lit "bb", lit "bb x").
Definition p30 : proc := (30, lit "ccc", lit "ccc y").
Definition scenario_procs : list proc := [p10; p20; p30].

(** ** The process lister *)

(** The characters at which [str.splitlines()] breaks a line. *)
Definition is_linebreak (c : ascii) : bool :=
  let n := code c in
  ((10 <=? n) && (n <=? 13)) || ((28 <=? n) && (n <=? 30)) || (n =? 133).

(** [s.splitlines()]: the lines without their breaks; a carriage return
    followed by a line feed is one break, and a break at the very end
    opens no further line. [cur] is the line being read, in reverse. *)
Fixpoint splitlines_aux (cur : str) (s : str) : list str :=
  match s with
  | [] => match cur with [] => [] | _ => [rev cur] end
  | c :: s' =>
      if is_linebreak c then
        rev cur ::
        match s' with
        | d :: s'' =>
            if (code c =? 13) && (code d =? 10) then splitlines_aux [] s''
            else splitlines_aux [] s'
        | [] => []
        end
      else splitlines_aux (c :: cur) s'
  end.

Definition splitlines (s : str) : list str := splitlines_aux [] s.

(** The longest prefix without white space, and the rest. *)
Fixpoint span_word (s : str) : str * str :=
  match s with
  | c :: s' =>
      if is_space c then ([], s)
      else let '(w, rest) := span_word s' in (c :: w, rest)
  | [] => ([], [])
  end.

(** [s.split(None, maxsplit)]: at most [maxsplit] fields are cut at white
    space; what follows them, without its leading white space, is the
    last field. *)
Fixpoint split_max (maxsplit : nat) (s : str) : list str :=
  match lstrip s with
  | [] => []
  | c :: s1 =>
      match maxsplit with
      | O => [c :: s1]
      | S n => let '(w, rest) := span_word (c :: s1) in w :: split_max n rest
      end
  end.

(** [l[:n]]: the first [n] elements; a negative [n] leaves out the last
    [-n]. *)
Definition slice_to {A} (n : Z) (l : list A) : list A :=
  if n <? 0 then take (Z.to_nat (Z.of_nat (length l) + n)) l
  else take (Z.to_nat n) l.

(** The body of the loop of [list_processes] for one line: [None] when
    the line is skipped. *)
Definition parse_ps_line (line : str) : result (option proc) :=
  match strip line with
  | [] => Ok None
  | c :: line' =>
      match split_max 2 (c :: line') with
      | pid_s :: comm :: rest =>
          pid <- py_int pid_s;;
          Ok (Some (pid, comm, match rest with args :: _ => args | [] => comm end))
      | _ => Ok None
      end
  end.

(** The loop over the lines: the entries appended, in the order of the
    lines. *)
Fixpoint parse_ps_lines (lines : list str) : result (list proc) :=
  match lines with
  | [] => Ok []
  | line :: lines' =>
      o <- parse_ps_line line;;
      procs <- parse_ps_lines lines';;
      Ok (match o with Some p => p :: procs | None => procs end)
  end.

(** The place of [p] in a list sorted by falling pid: behind the entries
    of a greater pid, in front of those of the same or a smaller one. *)
Fixpoint insert_desc (p : proc) (l : list proc) : list proc :=
  match l with
  | [] => [p]
  | q :: l' =>
      if pid_of p <? pid_of q then q :: insert_desc p l' else p :: l
  end.

(** [procs.sort(key=lambda x: x[0], reverse=True)]: falling pid, entries
    of the same pid in the order they had. *)
Definition sort_by_pid_desc (l : list proc) : list proc :=
  foldr insert_desc [] l.

(** [list_processes(limit)]. The environment is [ps]: the output of
    [ps -A -o pid=,comm=,args=], or the exception [check_output] raises. *)
Definition list_processes (ps : result str) (limit : Z) : result (list proc) :=
  out <- ps;;
  procs <- parse_ps_lines (splitlines out);;
  Ok (slice_to limit (sort_by_pid_desc procs)).

(** [process_selector] with its call of [list_processes()]. *)
Definition select_processes (ps : result str) (keys : list Z) : result flow :=
  procs <- list_processes ps 400;;
  process_selector procs keys.

(** ** What the selector draws *)

(** The loop [for row, i in enumerate(range(top, bottom), start=4)]: the
    screen row and the index into the view of each line drawn. *)
Definition drawn_rows (h len i : Z) : list (Z * Z) :=
  let '(top, bottom) := viewport h len i in
  zip (seqZ 4 (bottom - top)) (seqZ top (bottom - top)).

(** [f"{s:>w}"] and [f"{s:<w}"]: padded with blanks to the width [w],
    never cut. *)
Definition rjust (w : nat) (s : str) : str :=
  replicate (w - length s) " "%char ++ s.
Definition ljust (w : nat) (s : str) : str :=
  s ++ replicate (w - length s) " "%char.

(** [line] of the drawing loop, for a terminal of [w] columns. *)
Definition format_line (w : Z) (p : proc) : str :=
  rjust 6 (py_str (pid_of p)) ++ lit "  " ++ ljust 18 (comm_of p) ++
  lit "  " ++ slice_to (Z.max 0 (w - 30)) (args_of p).

(** [line[:w - 1]], the text handed to [addstr]. *)
Definition drawn_line (w : Z) (p : proc) : str :=
  slice_to (w - 1) (format_line w p).

(** ** The label prompts *)

(** [prompt_label]: the text typed, stripped, or the default. *)
Definition prompt_label (input default : str) : str :=
  str_or (strip input) default.

(** The default label of [label_wrapper]: [f"{comm} ({pid})"]. *)
Definition default_label (p : proc) : str :=
  comm_of p ++ lit " (" ++ py_str (pid_of p) ++ lit ")".

(** Neither end of the string is white space. *)
Definition trimmed (s : str) : Prop :=
  (forall c s', s = c :: s' -> is_space c = false) /\
  (forall c s', s = s' ++ [c] -> is_space c = false).

(** No character of the string is white space. *)
Definition no_space (s : str) : Prop :=
  Forall (fun c => is_space c = false) s.

(** The pids fall, weakly, along the list. *)
Definition pids_fall (l : list proc) : Prop :=
  StronglySorted (fun p q => pid_of q <= pid_of p) l.


(** A run of white space separating two fields. *)
Definition blanks (g : str) : Prop :=
  g <> [] /\ Forall (fun c => is_space c = true) g.

(** A field: not empty, and without white space. *)
Definition field (f : str) : Prop := f <> [] /\ no_space f.

(** An output of [ps] that begins with a header line. *)
Definition output_with_header : str :=
  lit "PID COMM ARGS" ++ [chr 10] ++ lit "  1 init /sbin/init" ++ [chr 10].

(** An output of [ps] with a blank line, a line of one field, a line of
    two fields and two lines with a command. *)
Definition output_of_five_lines : str :=
  lit "    1 init /sbin/init" ++ [chr 10] ++
  lit "  450 sh" ++ [chr 10] ++ [chr 10] ++
  lit " 7" ++ [chr 10] ++
  lit "   23 vim vim  notes.txt" ++ [chr 10].


(** ** Lemmas on strings *)

Lemma starts_with_spec needle s :
  starts_with needle s = true <-> exists post, s = needle ++ post.
Proof.
  revert s; induction needle as [|a needle IH]; intros s; simpl.
  - split; [intros _; by exists s | done].
  - destruct s as [|b s].
    + split; [done | intros [post H]; discriminate].
    + rewrite andb_true_iff, IH. split.
      * intros [Hab [post ->]]. apply Ascii.eqb_eq in Hab as ->. by exists post.
      * intros [post H]. injection H as -> ->. split; [apply Ascii.eqb_refl | by exists post].
Qed.

Lemma contains_spec needle s :
  contains needle s = true <-> exists pre post, s = pre ++ needle ++ post.
Proof.
  induction s as [|b s IH].
  - simpl. rewrite orb_false_r, starts_with_spec. split.
    + intros [post H]. by exists [], post.
    + intros (pre & post & H). destruct pre; [by exists post | discriminate].
  - cbn [contains]. rewrite orb_true_iff, starts_with_spec, IH. split.
    + intros [[post H] | (pre & post & H)].
      * by exists [], post.
      * exists (b :: pre), post. by rewrite H.
    + intros (pre & post & H). destruct pre as [|c pre].
      * left. by exists post.
      * right. injection H as -> ->. by exists pre, post.
Qed.

Lemma eq_ignoring_case_lower a b :
  eq_ignoring_case a b <-> lower a = lower b.
Proof.
  unfold eq_ignoring_case, lower. split.
  - induction 1; simpl; congruence.
  - revert b; induction a as [|x a IH]; intros [|y b] H; try discriminate.
    + constructor.
    + injection H as Hxy Hab. constructor; auto.
Qed.

(** Lowering both sides and testing for a substring decides
    case-insensitive containment. *)
Lemma contains_lower_ci F s :
  contains (lower F) (lower s) = true <-> contains_ci F s.
Proof.
  rewrite contains_spec. unfold contains_ci. split.
  - intros (pre & post & H). unfold lower in H.
    apply map_eq_app in H as (pre' & rest & -> & Hpre & Hrest).
    apply map_eq_app in Hrest as (mid & post' & -> & Hmid & Hpost).
    exists pre', mid, post'. split; [done|].
    apply eq_ignoring_case_lower. by unfold lower.
  - intros (pre & mid & post & -> & H). apply eq_ignoring_case_lower in H.
    exists (lower pre), (lower post). unfold lower in *.
    by rewrite !map_app, H.
Qed.


(** The decimal rendering of an int has no letters, so lowering it
    changes nothing. *)
Lemma lower_string_of_uint d :
  lower (list_ascii_of_string (NilEmpty.string_of_uint d)) =
  list_ascii_of_string (NilEmpty.string_of_uint d).
Proof.
  induction d; simpl; [done | unfold lower in *; simpl; by rewrite IHd ..].
Qed.

Lemma lower_py_str n : lower (py_str n) = py_str n.
Proof.
  unfold py_str. destruct (Z.to_int n) as [d|d]; simpl.
  - apply lower_string_of_uint.
  - pose proof (lower_string_of_uint d) as H. unfold lower in *. simpl.
    by rewrite H.
Qed.

(** The test of the comprehension decides the match of the
    specification. *)
Lemma matches_spec_match F p :
  matches (lower F) p = true <-> spec_match F p.
Proof.
  unfold matches, spec_match.
  rewrite !orb_true_iff, <- !contains_lower_ci, lower_py_str. tauto.
Qed.

Lemma filtered_view_app l1 l2 F :
  filtered_view (l1 ++ l2) F = filtered_view l1 F ++ filtered_view l2 F.
Proof. unfold filtered_view. apply List.filter_app. Qed.

Lemma filtered_view_sublist procs F : sublist (filtered_view procs F) procs.
Proof.
  unfold filtered_view. induction procs as [|p procs IH]; simpl.
  - constructor.
  - destruct (matches (lower F) p); by constructor.
Qed.

Lemma elem_of_filtered_view procs F p :
  p ∈ filtered_view procs F <-> p ∈ procs /\ spec_match F p.
Proof.
  unfold filtered_view.
  by rewrite !list_elem_of_In, List.filter_In, matches_spec_match.
Qed.

(** C1. For every filter string and every candidate list, the filtered
    view holds exactly the candidates whose short name, full command or
    identifier in decimal contains the filter as a case-insensitive
    substring, in the order of the candidate list: membership is the match
    of the specification, the view is a subsequence of the candidates,
    and, entry by entry, a matching candidate is kept and any other is
    left out. *)
Theorem filtered_view_exact (F : str) (procs : list proc) :
  (forall p, p ∈ filtered_view procs F <-> p ∈ procs /\ spec_match F p) /\
  sublist (filtered_view procs F) procs /\
  (forall l1 l2,
     filtered_view (l1 ++ l2) F = filtered_view l1 F ++ filtered_view l2 F) /\
  (forall p, spec_match F p -> filtered_view [p] F = [p]) /\
  (forall p, ~ spec_match F p -> filtered_view [p] F = []).
Proof.
  split; [intros p; apply elem_of_filtered_view|].
  split; [apply filtered_view_sublist|].
  split; [intros; apply filtered_view_app|].
  split; intros p Hp; unfold filtered_view; simpl;
    destruct (matches (lower F) p) eqn:E; try done.
  - apply not_true_iff_false in E. by rewrite matches_spec_match in E.
  - by apply matches_spec_match in E.
Qed.

(** ** The selector: cursor *)

Lemma clamp_idx_range view i :
  view <> [] -> 0 <= clamp_idx view i <= Z.of_nat (length view) - 1.
Proof. destruct view; [done|]. intros _. unfold clamp_idx. simpl length. lia. Qed.

Lemma clamp_idx_fixed view i :
  0 <= i <= Z.of_nat (length view) - 1 -> clamp_idx view i = i.
Proof. destruct view; unfold clamp_idx; simpl length; lia. Qed.

Lemma cursor_ok_present procs st : cursor_ok procs (present procs st).
Proof.
  unfold cursor_ok, present. cbn [filter_text idx].
  destruct (filtered_view procs (filter_text st)) eqn:E; [done|].
  apply clamp_idx_range. done.
Qed.

(** The drawn cursor and the length of the view, as integers. *)
Lemma present_cursor_cases procs st :
  let len := Z.of_nat (length (filtered_view procs (filter_text st))) in
  let cur := idx (present procs st) in
  (len = 0 /\ cur = 0) \/ (0 <= cur <= len - 1).
Proof.
  pose proof (cursor_ok_present procs st) as H. unfold cursor_ok in H.
  cbn [present filter_text] in H. cbv zeta.
  destruct (filtered_view procs (filter_text st)); [by left | by right].
Qed.

Lemma iteration_up procs st :
  iteration procs st KEY_UP =
  Ok (Next {| filter_text := filter_text st;
              idx := idx (present procs st) - 1;
              selected := selected st |}).
Proof. reflexivity. Qed.

Lemma iteration_down procs st :
  iteration procs st KEY_DOWN =
  Ok (Next {| filter_text := filter_text st;
              idx := idx (present procs st) + 1;
              selected := selected st |}).
Proof. reflexivity. Qed.

Lemma presented_ok procs keys : forall st,
  Forall (cursor_ok procs) (presented procs keys st).
Proof.
  induction keys as [|ch keys IH]; intros st; simpl.
  - constructor; [apply cursor_ok_present | constructor].
  - constructor; [apply cursor_ok_present|].
    destruct (iteration procs st ch) as [[st'|sel]|e]; [apply IH | constructor ..].
Qed.

(** C2. For every candidate list and every sequence of keys, each state
    drawn has its cursor inside the view, or at 0 when the view is empty;
    an up key moves the drawn cursor one position back and leaves it
    where it is at the first entry, a down key moves it one position on
    and leaves it where it is at the last entry. *)
Theorem cursor_stays_in_view (procs : list proc) (keys : list Z)
    (st : selector_state) :
  Forall (cursor_ok procs) (presented procs keys st) /\
  let cur := idx (present procs st) in
  let len := Z.of_nat (length (filtered_view procs (filter_text st))) in
  (exists st', iteration procs st KEY_UP = Ok (Next st') /\
     filter_text st' = filter_text st /\ selected st' = selected st /\
     idx (present procs st') = if 0 <? cur then cur - 1 else cur) /\
  (exists st', iteration procs st KEY_DOWN = Ok (Next st') /\
     filter_text st' = filter_text st /\ selected st' = selected st /\
     idx (present procs st') = if cur <? len - 1 then cur + 1 else cur).
Proof.
  split; [apply presented_ok|]. cbv zeta.
  pose proof (present_cursor_cases procs st) as Hc. cbv zeta in Hc.
  split; eexists; (split; [first [apply iteration_up | apply iteration_down]|]);
    (split; [done|]); (split; [done|]);
    unfold present at 1; cbn [filter_text idx];
    destruct (filtered_view procs (filter_text st)) as [|p view] eqn:E;
    unfold clamp_idx in *; simpl length in *.
    all: repeat match goal with
           | |- context [?a <? ?b] => destruct (Z.ltb_spec a b)
           end; lia.
Qed.

(** ** The selector: Enter *)

Lemma py_index_in_range {A} (l : list A) (i : Z) :
  0 <= i < Z.of_nat (length l) ->
  exists x, l !! Z.to_nat i = Some x /\ py_index l i = Ok x.
Proof.
  intros Hi. destruct (lookup_lt_is_Some_2 l (Z.to_nat i)) as [x Hx]; [lia|].
  exists x. split; [done|]. unfold py_index.
  destruct (Z.ltb_spec i 0); [lia|].
  destruct (Z.leb_spec 0 i); [|lia].
  destruct (Z.ltb_spec i (Z.of_nat (length l))); [|lia].
  simpl. by rewrite Hx.
Qed.

Lemma is_enter_test ch :
  is_enter ch <-> (ch =? 10) || (ch =? 13) = true.
Proof. unfold is_enter. rewrite orb_true_iff, !Z.eqb_eq. tauto. Qed.

(** What Enter does, in one equation. *)
Lemma iteration_enter procs st ch :
  is_enter ch ->
  let view := filtered_view procs (filter_text st) in
  let pst := present procs st in
  iteration procs st ch =
  match view !! Z.to_nat (idx pst) with
  | None => Ok (Next pst)
  | Some chosen =>
      let sel := select chosen (selected st) in
      if (length sel =? 2)%nat then Ok (Return sel)
      else Ok (Next {| filter_text := filter_text st; idx := idx pst;
                       selected := sel |})
  end /\
  (view = [] <-> view !! Z.to_nat (idx pst) = None).
Proof.
  intros He. cbv zeta.
  pose proof (present_cursor_cases procs st) as Hc. cbv zeta in Hc.
  unfold iteration, handle_key.
  assert ((ch =? ord "q") = false) as -> by (destruct He; subst; reflexivity).
  assert ((ch =? ord "Q") = false) as -> by (destruct He; subst; reflexivity).
  assert ((ch =? KEY_UP) = false) as -> by (destruct He; subst; reflexivity).
  assert ((ch =? KEY_DOWN) = false) as -> by (destruct He; subst; reflexivity).
  assert ((ch =? KEY_BACKSPACE) = false) as -> by (destruct He; subst; reflexivity).
  assert ((ch =? 127) = false) as -> by (destruct He; subst; reflexivity).
  assert ((ch =? 8) = false) as -> by (destruct He; subst; reflexivity).
  apply is_enter_test in He. rewrite He. cbn [orb].
  destruct (filtered_view procs (filter_text st)) as [|p view] eqn:E.
  - split; [done|]. by split.
  - destruct (py_index_in_range (p :: view) (idx (present procs st)))
      as (x & Hx & Hix); [simpl length in *; lia|].
    rewrite Hix, Hx. cbn [bind selected present]. split; [done|].
    split; [done | intros; congruence].
Qed.

Lemma iteration_return procs st ch sel :
  iteration procs st ch = Ok (Return sel) ->
  is_enter ch /\
  exists chosen,
    filtered_view procs (filter_text st) !! Z.to_nat (idx (present procs st))
      = Some chosen /\
    sel = select chosen (selected st) /\ length sel = 2%nat.
Proof.
  intros H.
  assert (is_enter ch) as He.
  { apply is_enter_test. unfold iteration, handle_key in H.
    repeat (case_match; try discriminate); done. }
  split; [done|].
  destruct (iteration_enter procs st ch He) as [Heq _]. rewrite Heq in H.
  destruct (_ !! _) as [chosen|]; [|discriminate].
  exists chosen. split; [done|]. cbv zeta in H.
  destruct (Nat.eqb_spec (length (select chosen (selected st))) 2);
    [|discriminate].
  by injection H as <-.
Qed.

Lemma select_length chosen sel :
  length (select chosen sel) = length sel \/
  length (select chosen sel) = S (length sel).
Proof.
  unfold select. case_bool_decide; [by left | right].
  rewrite length_app. simpl. lia.
Qed.

(** The selection of a state the loop goes on with has fewer than two
    entries. *)
Lemma iteration_next_selected procs st ch st' :
  iteration procs st ch = Ok (Next st') ->
  (length (selected st) <= 1)%nat -> (length (selected st') <= 1)%nat.
Proof.
  intros H Hlen.
  destruct (decide (is_enter ch)) as [He|He].
  - destruct (iteration_enter procs st ch He) as [Heq _]. rewrite Heq in H.
    destruct (_ !! _) as [chosen|]; cbv zeta in H.
    + destruct (Nat.eqb_spec (length (select chosen (selected st))) 2);
        [discriminate|].
      injection H as <-. cbn [selected].
      destruct (select_length chosen (selected st)); lia.
    + by injection H as <-.
  - rewrite is_enter_test in He. apply not_true_is_false in He.
    unfold iteration, handle_key in H. rewrite He in H.
    repeat (case_match; try discriminate); by injection H as <-.
Qed.

Lemma run_selected procs keys : forall st st',
  run procs keys st = Ok (Next st') ->
  (length (selected st) <= 1)%nat -> (length (selected st') <= 1)%nat.
Proof.
  induction keys as [|ch keys IH]; intros st st' H Hlen; simpl in H.
  - by injection H as <-.
  - destruct (iteration procs st ch) as [[st1|sel]|e] eqn:E; try discriminate.
    eapply IH; [done|]. by eapply iteration_next_selected.
Qed.

(** C3. In every state the selector reaches, Enter on an empty view
    changes nothing; Enter on a non-empty view takes the entry at the
    cursor, changes nothing when that entry is already selected, and
    otherwise appends it; the selector returns exactly when that makes
    two entries, and what it returns is the pair of two different
    entries, the earlier choice first. No other key makes it return. *)
Theorem enter_selects_two (procs : list proc) (keys : list Z)
    (st : selector_state) (ch : Z) :
  process_selector procs keys = Ok (Next st) ->
  is_enter ch ->
  let view := filtered_view procs (filter_text st) in
  let pst := present procs st in
  (length (selected st) <= 1)%nat /\
  (view = [] -> iteration procs st ch = Ok (Next pst)) /\
  (view <> [] ->
   exists chosen, view !! Z.to_nat (idx pst) = Some chosen /\
     (chosen ∈ selected st -> iteration procs st ch = Ok (Next pst)) /\
     (selected st = [] ->
      iteration procs st ch =
      Ok (Next {| filter_text := filter_text st; idx := idx pst;
                  selected := [chosen] |})) /\
     (forall a, selected st = [a] -> a <> chosen ->
      iteration procs st ch = Ok (Return [a; chosen]))) /\
  (forall k sel, iteration procs st k = Ok (Return sel) ->
     is_enter k /\
     exists a b, sel = [a; b] /\ a <> b /\ selected st = [a] /\
       view !! Z.to_nat (idx pst) = Some b).
Proof.
  intros Hrun He view pst.
  assert (length (selected st) <= 1)%nat as Hlen.
  { eapply run_selected; [exact Hrun | simpl; lia]. }
  split; [done|].
  destruct (iteration_enter procs st ch He) as [Heq Hnil].
  fold view pst in Heq, Hnil.
  split; [|split].
  - intros Hv. apply Hnil in Hv. by rewrite Heq, Hv.
  - intros Hv. destruct (view !! Z.to_nat (idx pst)) as [chosen|] eqn:El;
      [|exfalso; by apply Hv, Hnil].
    exists chosen. split; [done|]. cbv zeta in Heq. unfold select in Heq.
    split; [|split].
    + intros Hin. rewrite Heq. rewrite bool_decide_eq_true_2 by done.
      destruct (Nat.eqb_spec (length (selected st)) 2); [lia|].
      subst pst. unfold present. by destruct st.
    + intros Hs. rewrite Heq, Hs.
      by rewrite bool_decide_eq_false_2 by apply not_elem_of_nil.
    + intros a Hs Hne. rewrite Heq, Hs.
      by rewrite bool_decide_eq_false_2
        by (rewrite list_elem_of_singleton; congruence).
  - intros k sel Hret.
    apply iteration_return in Hret as (Hk & chosen & Hl & -> & Hlen2).
    split; [done|]. fold view pst in Hl. unfold select in *.
    case_bool_decide as Hin; [lia|].
    rewrite length_app in Hlen2. simpl in Hlen2.
    destruct (selected st) as [|a [|]] eqn:Es; simpl in *; try lia.
    exists a, chosen. repeat split; [|done].
    intros ->. apply Hin. by left.
Qed.

(** The scenario of the specification: filter [c], Enter, the filter
    cleared, the cursor moved to index 1, Enter. *)
Example selector_scenario :
  process_selector scenario_procs [ord "c"; 10; KEY_BACKSPACE; KEY_DOWN; 10]
  = Ok (Return [p30; p20]).
Proof. reflexivity. Qed.

(** ** The selector: filter edits *)

Lemma drop_last_snoc (s : str) c : drop_last (s ++ [c]) = s.
Proof.
  unfold drop_last. rewrite length_app. simpl.
  replace (length s + 1 - 1)%nat with (length s) by lia.
  by rewrite take_app_length.
Qed.

(** C4, as the code has it. For every state and every key in the
    printable range 32..126 other than the quit keys [q] and [Q], the
    character is appended to the filter and the cursor is set to 0; for
    every backspace key the last character of the filter is removed,
    nothing when the filter is empty, and the cursor is set to 0. *)
Theorem filter_edit_resets_cursor (procs : list proc) (st : selector_state)
    (ch : Z) :
  (is_printable ch -> ~ is_quit ch ->
   iteration procs st ch =
   Ok (Next {| filter_text := filter_text st ++ [chr ch]; idx := 0;
               selected := selected st |})) /\
  (is_backspace ch ->
   iteration procs st ch =
   Ok (Next {| filter_text := drop_last (filter_text st); idx := 0;
               selected := selected st |})) /\
  drop_last [] = [] /\
  (forall s c, drop_last (s ++ [c]) = s).
Proof.
  split; [|split; [|split; [done | apply drop_last_snoc]]].
  - unfold is_printable, is_quit, iteration, handle_key.
    change (ord "q") with 113. change (ord "Q") with 81.
    unfold KEY_UP, KEY_DOWN, KEY_BACKSPACE. intros Hp Hq.
    repeat match goal with
           | |- context [?a =? ?b] => destruct (Z.eqb_spec a b); [lia|]
           end.
    destruct (Z.leb_spec 32 ch); [|lia]. destruct (Z.leb_spec ch 126); [|lia].
    reflexivity.
  - unfold is_backspace, KEY_BACKSPACE. intros [-> | [-> | ->]]; reflexivity.
Qed.

(** The key [q] is in the printable range, and it ends the session: its
    character is not appended to the filter. *)
Lemma printable_q_is_not_appended :
  is_printable (ord "q") /\
  iteration [] init_state (ord "q") = Raise (SystemExit 0) /\
  iteration [] init_state (ord "q") <>
  Ok (Next {| filter_text := filter_text init_state ++ [chr (ord "q")];
              idx := 0; selected := selected init_state |}).
Proof. split; [unfold is_printable; by vm_compute | split; [reflexivity | discriminate]]. Qed.

(** ** The selector: viewport *)

(** C9. For a viewport of at least one row and a drawn cursor, the top
    row lies in [0, max(0, len - rows)], the cursor lies in
    [top, top + rows), the window ends at [min(len, top + rows)], and the
    top is [cursor - rows // 2], which centres the cursor, whenever
    that window lies inside the view; otherwise the top is clamped to 0
    or to [max(0, len - rows)]. *)
Theorem viewport_keeps_cursor (h len i : Z) :
  let max_rows := h - 4 - 1 in
  1 <= max_rows ->
  (len = 0 /\ i = 0) \/ (0 <= i <= len - 1) ->
  let top := (viewport h len i).1 in
  let bottom := (viewport h len i).2 in
  0 <= top <= Z.max 0 (len - max_rows) /\
  top <= i < top + max_rows /\
  bottom = Z.min len (top + max_rows) /\
  (0 <= i - max_rows / 2 -> i - max_rows / 2 + max_rows <= len ->
   top = i - max_rows / 2) /\
  (i - max_rows / 2 < 0 -> top = 0) /\
  (len < i - max_rows / 2 + max_rows -> top = Z.max 0 (len - max_rows)).
Proof.
  intros max_rows Hrows Hcur. unfold viewport. cbn [fst snd].
  fold max_rows.
  assert (0 <= max_rows / 2 < max_rows) as Hhalf.
  { split; [apply Z.div_pos; lia | apply Z.div_lt; lia]. }
  generalize dependent (max_rows / 2). intros half Hhalf. lia.
Qed.

(** ** Bounded deques *)

Lemma deque_append_full {A} (d : deque A) (x : A) :
  0 < maxlen d -> Z.of_nat (length (items d)) = maxlen d ->
  deque_append x d = {| maxlen := maxlen d; items := drop 1 (items d) ++ [x] |}.
Proof.
  intros Hpos Hfull. unfold deque_append. f_equal.
  rewrite length_app. simpl length.
  destruct (Z.ltb_spec (maxlen d) (Z.of_nat (length (items d) + 1))); [|lia].
  destruct (items d); [simpl in *; lia | done].
Qed.

Lemma deque_append_room {A} (d : deque A) (x : A) :
  Z.of_nat (length (items d)) < maxlen d ->
  deque_append x d = {| maxlen := maxlen d; items := items d ++ [x] |}.
Proof.
  intros Hroom. unfold deque_append. f_equal.
  rewrite length_app. simpl length.
  destruct (Z.ltb_spec (maxlen d) (Z.of_nat (length (items d) + 1))); [lia | done].
Qed.

Lemma most_recent_length {A} n (l : list A) :
  length (most_recent n l) = (length l `min` n)%nat.
Proof. unfold most_recent. rewrite length_drop. lia. Qed.

Lemma most_recent_snoc {A} n (l : list A) x :
  most_recent n (l ++ [x]) =
  if (n <=? length l)%nat then drop 1 (most_recent n l ++ [x])
  else most_recent n l ++ [x].
Proof.
  unfold most_recent. rewrite length_app. simpl length.
  destruct (Nat.leb_spec n (length l)) as [Hle|Hlt].
  - destruct n as [|n].
    + rewrite (drop_ge l) by lia.
      by rewrite drop_ge by (rewrite length_app; simpl; lia).
    + rewrite (drop_app_le l [x]) by lia.
      rewrite (drop_app_le (drop _ l)) by (rewrite length_drop; lia).
      rewrite drop_drop. do 2 f_equal. lia.
  - replace (length l + 1 - n)%nat with 0%nat by lia.
    replace (length l - n)%nat with 0%nat by lia. done.
Qed.

(** After any number of appends to a new deque of bound [N], it holds the
    [N] most recent of them, oldest first. *)
Lemma deque_extend_new {A} (N : Z) (xs : list A) :
  0 <= N ->
  deque_extend xs {| maxlen := N; items := [] |} =
  {| maxlen := N; items := most_recent (Z.to_nat N) xs |}.
Proof.
  intros HN. induction xs as [|x xs IH] using rev_ind; [done|].
  unfold deque_extend in *. rewrite foldl_snoc, IH.
  unfold deque_append. cbn [maxlen items]. f_equal.
  rewrite most_recent_snoc, length_app, most_recent_length. simpl length.
  destruct (Nat.leb_spec (Z.to_nat N) (length xs));
    destruct (Z.ltb_spec N (Z.of_nat ((length xs `min` Z.to_nat N) + 1)));
    done || lia.
Qed.


(** ** The metrics probe *)

Lemma py_float_cases s :
  (exists x, py_float s = Ok x) \/ py_float s = Raise ValueError.
Proof.
  unfold py_float.
  destruct (remove_underscores None (strip_num s)) as [s2|]; [|by right].
  destruct (read_sign s2) as [neg body].
  repeat case_match; eauto.
Qed.

Lemma py_int_cases s :
  (exists n, py_int s = Ok n) \/ py_int s = Raise ValueError.
Proof.
  unfold py_int. destruct (read_sign (strip_num s)) as [neg digits].
  destruct (int_digits None 0 digits); eauto.
Qed.

Lemma div_1024_cases n :
  (exists x, float_of_int n = Ok x /\ div_1024 n = Ok (SFdiv prec emax x f1024)) \/
  (float_of_int n = Raise OverflowError /\ div_1024 n = Raise OverflowError).
Proof.
  unfold div_1024, float_of_int.
  destruct (round_float n 0); simpl; eauto.
Qed.

(** The body of the [try] of [get_metrics] raises nothing but
    [ValueError] and [OverflowError] once [ps] has given its output. *)
Lemma get_metrics_cases ps pid :
  match ps (py_str pid) with
  | Raise e =>
      get_metrics ps pid = if is_Exception e then Ok None else Raise e
  | Ok out =>
      match split (strip out) with
      | [cpu_s; rss_s] =>
          match py_float cpu_s, py_int rss_s with
          | Ok cpu, Ok rss_kb =>
              match float_of_int rss_kb with
              | Ok x =>
                  strip out <> [] /\
                  get_metrics ps pid = Ok (Some (cpu, SFdiv prec emax x f1024))
              | Raise _ => get_metrics ps pid = Ok None
              end
          | _, _ => get_metrics ps pid = Ok None
          end
      | _ => get_metrics ps pid = Ok None
      end
  end.
Proof.
  unfold get_metrics. destruct (ps (py_str pid)) as [out|e]; [|done].
  cbn [bind]. destruct (strip out) as [|c s] eqn:Es; [done|].
  destruct (split (c :: s)) as [|cpu_s [|rss_s [|]]]; try done.
  destruct (py_float_cases cpu_s) as [[cpu ->] | ->]; [|done].
  destruct (py_int_cases rss_s) as [[rss_kb ->] | ->]; [|done].
  cbn [bind].
  destruct (div_1024_cases rss_kb) as [(x & -> & ->) | [-> ->]]; done.
Qed.

Lemma get_metrics_ok ps pid :
  query_result (ps (py_str pid)) -> exists m, get_metrics ps pid = Ok m.
Proof.
  intros Hq. pose proof (get_metrics_cases ps pid) as H.
  unfold query_result in Hq. destruct (ps (py_str pid)) as [out|e].
  - repeat case_match; destruct_and?; eauto.
  - rewrite Hq in H. eauto.
Qed.

(** C10. For every pid and every answer of the query that is not the
    operator's interrupt, [get_metrics] raises nothing: it returns [None],
    or the pair of the parsed CPU figure and the parsed resident size
    divided by 1024.0. A failed command, an empty output, an output that
    is not two fields and a field that is not a number all give [None]. *)
Theorem get_metrics_never_raises (ps : str -> result str) (pid : Z) :
  query_result (ps (py_str pid)) ->
  (get_metrics ps pid = Ok None \/
   exists out cpu_s rss_s cpu rss_kb x,
     ps (py_str pid) = Ok out /\ split (strip out) = [cpu_s; rss_s] /\
     py_float cpu_s = Ok cpu /\ py_int rss_s = Ok rss_kb /\
     float_of_int rss_kb = Ok x /\
     get_metrics ps pid = Ok (Some (cpu, SFdiv prec emax x f1024))) /\
  (forall e, ps (py_str pid) = Raise e -> get_metrics ps pid = Ok None) /\
  (forall out, ps (py_str pid) = Ok out -> strip out = [] ->
     get_metrics ps pid = Ok None) /\
  (forall out, ps (py_str pid) = Ok out ->
     length (split (strip out)) <> 2%nat -> get_metrics ps pid = Ok None) /\
  (forall out cpu_s rss_s, ps (py_str pid) = Ok out ->
     split (strip out) = [cpu_s; rss_s] ->
     py_float cpu_s = Raise ValueError \/ py_int rss_s = Raise ValueError ->
     get_metrics ps pid = Ok None).
Proof.
  intros Hq. pose proof (get_metrics_cases ps pid) as H.
  unfold query_result in Hq.
  destruct (ps (py_str pid)) as [out|e] eqn:Eps.
  - split; [|split; [done|split; [|split]]].
    + destruct (split (strip out)) as [|cpu_s [|rss_s [|]]] eqn:Esp; auto.
      destruct (py_float cpu_s) as [cpu|] eqn:Ef; auto.
      destruct (py_int rss_s) as [rss_kb|] eqn:Ei; auto.
      destruct (float_of_int rss_kb) as [x|] eqn:Ex; auto.
      destruct H as [_ H].
      right. exists out, cpu_s, rss_s, cpu, rss_kb, x. by repeat split.
    + intros out' [= <-] Hs. unfold get_metrics. rewrite Eps. cbn [bind].
      by rewrite Hs.
    + intros out' [= <-] Hlen.
      destruct (split (strip out)) as [|cpu_s [|rss_s [|]]]; done.
    + intros out' cpu_s rss_s [= <-] Hsp Hbad. rewrite Hsp in H.
      destruct Hbad as [Hb | Hb]; rewrite Hb in H; [done|].
      by destruct (py_float cpu_s).
  - rewrite Hq in H. split; [by left|]. split; [done|].
    split; [done | split; done].
Qed.

(** ** The sampling loop *)

Lemma tick_eq pid1 pid2 i s :
  tick pid1 pid2 i s =
  (p <- tick_samples pid1 pid2 i;; Ok (append_samples (now i) p.1 p.2 s)).
Proof.
  unfold tick, tick_samples.
  destruct (get_metrics (ps1 i) pid1) as [m1|]; [|done]. cbn [bind].
  destruct (get_metrics (ps2 i) pid2) as [m2|]; [|done]. cbn [bind].
  by destruct (sample_of m1), (sample_of m2).
Qed.

Lemma tick_samples_ok pid1 pid2 i :
  no_interrupt pid1 pid2 i -> exists p, tick_samples pid1 pid2 i = Ok p.
Proof.
  intros [H1 H2]. unfold tick_samples.
  destruct (get_metrics_ok _ _ H1) as [m1 ->].
  destruct (get_metrics_ok _ _ H2) as [m2 ->]. by eexists.
Qed.

(** A run that completes has extended each deque by one element for each
    tick, in the order of the ticks. *)
Lemma run_ticks_extend pid1 pid2 inputs : forall s0 s,
  run_ticks pid1 pid2 inputs s0 = Ok s ->
  exists samples,
    Forall2 (fun i p => tick_samples pid1 pid2 i = Ok p) inputs samples /\
    t s = deque_extend (now <$> inputs) (t s0) /\
    cpu1 s = deque_extend (samples.*1.*1) (cpu1 s0) /\
    mem1 s = deque_extend (samples.*1.*2) (mem1 s0) /\
    cpu2 s = deque_extend (samples.*2.*1) (cpu2 s0) /\
    mem2 s = deque_extend (samples.*2.*2) (mem2 s0).
Proof.
  induction inputs as [|i inputs IH]; intros s0 s H; simpl in H.
  - injection H as <-. exists []. by repeat split.
  - rewrite tick_eq in H.
    destruct (tick_samples pid1 pid2 i) as [p|] eqn:Ep; [|done].
    cbn [bind] in H. apply IH in H as (samples & HF & Ht & Hc1 & Hm1 & Hc2 & Hm2).
    exists (p :: samples). split; [by constructor|].
    rewrite Ht, Hc1, Hm1, Hc2, Hm2. done.
Qed.

Lemma run_ticks_ok pid1 pid2 inputs : forall s0,
  Forall (no_interrupt pid1 pid2) inputs ->
  exists s, run_ticks pid1 pid2 inputs s0 = Ok s.
Proof.
  induction inputs as [|i inputs IH]; intros s0 HF; simpl.
  - by eexists.
  - inversion HF as [|? ? Hi HF']; subst.
    rewrite tick_eq. destruct (tick_samples_ok _ _ _ Hi) as [p ->].
    cbn [bind]. by apply IH.
Qed.

Lemma series_new_inv N s0 :
  series_new N = Ok s0 ->
  0 <= N /\
  s0 = {| t := {| maxlen := N; items := [] |};
          cpu1 := {| maxlen := N; items := [] |};
          cpu2 := {| maxlen := N; items := [] |};
          mem1 := {| maxlen := N; items := [] |};
          mem2 := {| maxlen := N; items := [] |} |}.
Proof.
  unfold series_new, deque_new. destruct (Z.ltb_spec N 0); [done|].
  cbn [bind]. intros [= <-]. done.
Qed.

(** The contents of the deques after a completed run from new deques. *)
Lemma run_ticks_most_recent N pid1 pid2 inputs s0 s :
  series_new N = Ok s0 ->
  run_ticks pid1 pid2 inputs s0 = Ok s ->
  exists samples,
    Forall2 (fun i p => tick_samples pid1 pid2 i = Ok p) inputs samples /\
    items (t s) = most_recent (Z.to_nat N) (now <$> inputs) /\
    items (cpu1 s) = most_recent (Z.to_nat N) (samples.*1.*1) /\
    items (mem1 s) = most_recent (Z.to_nat N) (samples.*1.*2) /\
    items (cpu2 s) = most_recent (Z.to_nat N) (samples.*2.*1) /\
    items (mem2 s) = most_recent (Z.to_nat N) (samples.*2.*2).
Proof.
  intros Hnew Hrun. apply series_new_inv in Hnew as [HN ->].
  apply run_ticks_extend in Hrun as (samples & HF & Ht & Hc1 & Hm1 & Hc2 & Hm2).
  exists samples. split; [done|]. cbn [t cpu1 cpu2 mem1 mem2] in *.
  rewrite Ht, Hc1, Hm1, Hc2, Hm2, !deque_extend_new by done. done.
Qed.

Lemma run_ticks_lengths N pid1 pid2 inputs s0 s :
  series_new N = Ok s0 ->
  run_ticks pid1 pid2 inputs s0 = Ok s ->
  all_lengths s (length inputs `min` Z.to_nat N)%nat.
Proof.
  intros Hnew Hrun.
  destruct (run_ticks_most_recent _ _ _ _ _ _ Hnew Hrun)
    as (samples & HF & Ht & Hc1 & Hm1 & Hc2 & Hm2).
  apply Forall2_length in HF. unfold all_lengths.
  rewrite Ht, Hc1, Hm1, Hc2, Hm2, !most_recent_length, !length_fmap. lia.
Qed.

Lemma deque_append_last {A} (d : deque A) (x : A) :
  0 < maxlen d -> last (items (deque_append x d)) = Some x.
Proof.
  intros Hpos. unfold deque_append. cbn [items].
  destruct (Z.ltb_spec (maxlen d) (Z.of_nat (length (items d ++ [x]))));
    [|apply last_snoc].
  destruct (items d) as [|y l]; [simpl in *; lia|].
  change (drop 1 ((y :: l) ++ [x])) with (l ++ [x]). apply last_snoc.
Qed.

(** C5. In every run of the sampling loop from deques of bound [N], after
    [k] ticks each of the deques has [min k N] elements and holds the [N]
    most recent values appended, oldest first; an append to a full deque
    drops its oldest element and nothing else, an append to a deque with
    room drops nothing. With [N = 3] and the resident sizes 100, 110, 120
    and 130 MB the memory deque ends as 110, 120, 130 and the times as
    1, 2, 3. *)
Theorem series_hold_most_recent :
  (forall (N pid1 pid2 : Z) (inputs : list tick_input) (s0 s : series),
     series_new N = Ok s0 ->
     run_ticks pid1 pid2 inputs s0 = Ok s ->
     all_lengths s (length inputs `min` Z.to_nat N)%nat /\
     exists samples,
       Forall2 (fun i p => tick_samples pid1 pid2 i = Ok p) inputs samples /\
       items (t s) = most_recent (Z.to_nat N) (now <$> inputs) /\
       items (cpu1 s) = most_recent (Z.to_nat N) (samples.*1.*1) /\
       items (mem1 s) = most_recent (Z.to_nat N) (samples.*1.*2) /\
       items (cpu2 s) = most_recent (Z.to_nat N) (samples.*2.*1) /\
       items (mem2 s) = most_recent (Z.to_nat N) (samples.*2.*2)) /\
  (forall (d : deque float) (x : float),
     0 < maxlen d -> Z.of_nat (length (items d)) = maxlen d ->
     deque_append x d =
     {| maxlen := maxlen d; items := drop 1 (items d) ++ [x] |}) /\
  (forall (d : deque float) (x : float),
     Z.of_nat (length (items d)) < maxlen d ->
     deque_append x d = {| maxlen := maxlen d; items := items d ++ [x] |}) /\
  (exists s0 s,
     series_new 3 = Ok s0 /\ run_ticks 1 2 four_ticks s0 = Ok s /\
     items (mem1 s) = [round_float 110 0; round_float 120 0; round_float 130 0] /\
     items (t s) = [round_float 1 0; round_float 2 0; round_float 3 0]).
Proof.
  split; [|split; [|split]].
  - intros N pid1 pid2 inputs s0 s Hnew Hrun. split.
    + by eapply run_ticks_lengths.
    + by eapply run_ticks_most_recent.
  - intros d x. apply deque_append_full.
  - intros d x. apply deque_append_room.
  - do 2 eexists. split; [reflexivity|]. split; [vm_compute; reflexivity|].
    split; vm_compute; reflexivity.
Qed.

(** C6. For every run of the sampling loop from new deques and every
    sequence of probe outcomes, after every completed tick the five deques
    have the same length; a run in which no probe is cut by the interrupt
    completes, whatever the probes answer, and each of its ticks appends
    one value to each deque. *)
Theorem buffers_in_lockstep (N pid1 pid2 : Z) (inputs : list tick_input)
    (s0 : series) :
  series_new N = Ok s0 ->
  (forall s, run_ticks pid1 pid2 inputs s0 = Ok s ->
     all_lengths s (length inputs `min` Z.to_nat N)%nat) /\
  (Forall (no_interrupt pid1 pid2) inputs ->
   exists s, run_ticks pid1 pid2 inputs s0 = Ok s) /\
  (forall i s, no_interrupt pid1 pid2 i ->
   exists p1 p2, tick pid1 pid2 i s = Ok (append_samples (now i) p1 p2 s)).
Proof.
  intros Hnew. split; [|split].
  - intros s Hrun. by eapply run_ticks_lengths.
  - apply run_ticks_ok.
  - intros i s Hi. rewrite tick_eq.
    destruct (tick_samples_ok _ _ _ Hi) as [p ->]. by exists p.1, p.2.
Qed.

(** C7. In every tick, when the probe of one process gives [None] and the
    probe of the other gives a pair, the tick appends [nan] as CPU and as
    memory for the first and the pair for the other, together with the
    time; [nan] is not a zero; a tick whose probes are not cut by the
    interrupt always completes; the value appended is the newest element
    of a deque with a positive bound. *)
Theorem failed_probe_gives_missing (pid1 pid2 : Z) (i : tick_input)
    (s : series) :
  (forall p, get_metrics (ps1 i) pid1 = Ok None ->
     get_metrics (ps2 i) pid2 = Ok (Some p) ->
     tick pid1 pid2 i s = Ok (append_samples (now i) (nan, nan) p s)) /\
  (forall p, get_metrics (ps1 i) pid1 = Ok (Some p) ->
     get_metrics (ps2 i) pid2 = Ok None ->
     tick pid1 pid2 i s = Ok (append_samples (now i) p (nan, nan) s)) /\
  (forall sign, nan <> S754_zero sign /\
     SFeqb nan (S754_zero sign) = false) /\
  (no_interrupt pid1 pid2 i -> exists s', tick pid1 pid2 i s = Ok s') /\
  (forall (d : deque float) (x : float),
     0 < maxlen d -> last (items (deque_append x d)) = Some x).
Proof.
  split; [|split; [|split; [|split]]].
  - intros [c r] H1 H2. unfold tick. by rewrite H1, H2.
  - intros [c r] H1 H2. unfold tick. by rewrite H1, H2.
  - intros sign. split; [done | by destruct sign].
  - intros Hi. rewrite tick_eq.
    destruct (tick_samples_ok _ _ _ Hi) as [p ->]. by eexists.
  - intros d x. apply deque_append_last.
Qed.

(** ** The prompts *)

(** C8, as the code has it. An empty or all-blank input to a prompt
    gives its default, 1.0 for the interval and 120 for the window; an
    input that is not a number is not replaced by a default:
    [label_wrapper] raises [ValueError]; inputs that are numbers give
    their values. *)
Theorem prompts_default_when_empty (interval_input window_input : str) :
  (strip interval_input = [] -> strip window_input = [] ->
   label_wrapper interval_input window_input = Ok (round_float 1 0, 120)) /\
  (strip interval_input <> [] ->
   py_float (strip interval_input) = Raise ValueError ->
   label_wrapper interval_input window_input = Raise ValueError) /\
  (strip window_input <> [] ->
   py_int (strip window_input) = Raise ValueError ->
   label_wrapper interval_input window_input = Raise ValueError) /\
  (forall x n,
     py_float (str_or (strip interval_input) (lit "1.0")) = Ok x ->
     py_int (str_or (strip window_input) (lit "120")) = Ok n ->
     label_wrapper interval_input window_input = Ok (x, n)).
Proof.
  unfold label_wrapper. split; [|split; [|split]].
  - intros -> ->. reflexivity.
  - intros Hne Hf. destruct (strip interval_input); [done|].
    cbn [str_or]. by rewrite Hf.
  - intros Hne Hi. destruct (strip window_input) as [|c w] eqn:Ew; [done|].
    cbn [str_or]. rewrite Hi.
    by destruct (py_float_cases (str_or (strip interval_input) (lit "1.0")))
      as [[x ->] | ->].
  - intros x n -> ->. reflexivity.
Qed.

(** An interval or a window that is not a number is fatal: no default
    takes its place. *)
Lemma prompt_not_a_number_raises :
  label_wrapper (lit "abc") (lit "") = Raise ValueError /\
  label_wrapper (lit "") (lit "abc") = Raise ValueError /\
  label_wrapper (lit "abc") (lit "") <> Ok (round_float 1 0, 120) /\
  label_wrapper (lit "") (lit "abc") <> Ok (round_float 1 0, 120).
Proof. repeat split; (reflexivity || discriminate). Qed.

(** ** The theorems at concrete inputs *)

(** The filter [C] keeps the candidate 30 of the scenario: its short name
    [ccc] contains [c]. *)
Lemma filtered_view_exact_witness :
  spec_match (lit "C") p30 /\ filtered_view [p30] (lit "C") = [p30].
Proof.
  assert (spec_match (lit "C") p30) as Hm.
  { left. exists [], (lit "c"), (lit "cc"). split; [reflexivity|].
    repeat constructor. }
  split; [exact Hm|].
  exact (proj1 (proj2 (proj2 (proj2 (filtered_view_exact (lit "C") []))))
           p30 Hm).
Defined.

(** The scenario of the specification before its last key: candidate 30
    is selected, the cursor is on candidate 20, and Enter returns the
    pair 30, 20. *)
Lemma enter_selects_two_witness :
  process_selector scenario_procs [ord "c"; 10; KEY_BACKSPACE; KEY_DOWN]
  = Ok (Next {| filter_text := []; idx := 1; selected := [p30] |}) /\
  is_enter 10 /\
  iteration scenario_procs {| filter_text := []; idx := 1; selected := [p30] |} 10
  = Ok (Return [p30; p20]).
Proof.
  assert (process_selector scenario_procs [ord "c"; 10; KEY_BACKSPACE; KEY_DOWN]
          = Ok (Next {| filter_text := []; idx := 1; selected := [p30] |}))
    as Hrun by reflexivity.
  assert (is_enter 10) as He by (by left).
  split; [exact Hrun|]. split; [exact He|].
  destruct (enter_selects_two _ _ _ 10 Hrun He) as (_ & _ & Hsel & _).
  destruct Hsel as (chosen & Hl & _ & _ & Hret); [discriminate|].
  vm_compute in Hl. injection Hl as <-.
  apply (Hret p30); [reflexivity | discriminate].
Defined.

(** The key [c] goes to the filter; backspace on the empty filter leaves
    it empty. *)
Lemma filter_edit_resets_cursor_witness :
  is_printable (ord "c") /\ ~ is_quit (ord "c") /\
  iteration scenario_procs init_state (ord "c") =
  Ok (Next {| filter_text := lit "c"; idx := 0; selected := [] |}) /\
  is_backspace 127 /\
  iteration scenario_procs init_state 127 = Ok (Next init_state).
Proof.
  assert (is_printable (ord "c")) as Hp by (by vm_compute).
  assert (~ is_quit (ord "c")) as Hq by (intros [H|H]; discriminate H).
  assert (is_backspace 127) as Hb by (right; by left).
  split; [exact Hp|]. split; [exact Hq|].
  destruct (filter_edit_resets_cursor scenario_procs init_state (ord "c"))
    as (Happend & _).
  destruct (filter_edit_resets_cursor scenario_procs init_state 127)
    as (_ & Hback & _).
  split; [exact (Happend Hp Hq)|]. split; [exact Hb | exact (Hback Hb)].
Defined.

(** A terminal of 25 lines has 20 rows for the view; with 100 entries and
    the cursor on entry 50 the window is rows 40 to 59. *)
Lemma viewport_keeps_cursor_witness :
  1 <= 25 - 4 - 1 /\
  viewport 25 100 50 = (40, 60) /\
  0 <= (viewport 25 100 50).1 <= Z.max 0 (100 - (25 - 4 - 1)) /\
  (viewport 25 100 50).1 <= 50 < (viewport 25 100 50).1 + (25 - 4 - 1).
Proof.
  assert (1 <= 25 - 4 - 1) as Hrows by lia.
  assert ((100 = 0 /\ 50 = 0) \/ (0 <= 50 <= 100 - 1)) as Hcur by (right; lia).
  split; [exact Hrows|]. split; [reflexivity|].
  destruct (viewport_keeps_cursor 25 100 50 Hrows Hcur) as (Htop & Hin & _).
  split; [exact Htop | exact Hin].
Defined.

(** Four ticks into deques of bound 3: each deque has 3 elements. *)
Lemma series_hold_most_recent_witness :
  exists s0 s,
    series_new 3 = Ok s0 /\ run_ticks 1 2 four_ticks s0 = Ok s /\
    all_lengths s 3.
Proof.
  destruct (series_new 3) as [s0|] eqn:Hnew; [|discriminate Hnew].
  destruct (run_ticks 1 2 four_ticks s0) as [s|] eqn:Hrun.
  - exists s0, s. split; [reflexivity|]. split; [exact Hrun|].
    exact (proj1 (proj1 series_hold_most_recent 3 1 2 four_ticks s0 s
                    Hnew Hrun)).
  - exfalso. injection Hnew as <-. vm_compute in Hrun. discriminate Hrun.
Defined.

(** The scenario of the specification: the probe for the process 999
    fails in each of five ticks; the run completes and every deque has
    five elements. *)
Lemma buffers_in_lockstep_witness :
  exists s0 s,
    series_new 120 = Ok s0 /\
    Forall (no_interrupt 999 7) five_ticks_one_gone /\
    run_ticks 999 7 five_ticks_one_gone s0 = Ok s /\
    all_lengths s 5.
Proof.
  destruct (series_new 120) as [s0|] eqn:Hnew; [|discriminate Hnew].
  assert (Forall (no_interrupt 999 7) five_ticks_one_gone) as Hq.
  { repeat constructor. }
  destruct (buffers_in_lockstep 120 999 7 five_ticks_one_gone s0 Hnew)
    as (Hlen & Hrun & _).
  destruct (Hrun Hq) as [s Hs].
  exists s0, s. split; [reflexivity|]. split; [exact Hq|].
  split; [exact Hs | exact (Hlen s Hs)].
Defined.

(** One tick in which the process 999 is gone and the other reports 1.5
    percent and 2048 kB: [nan] and [nan] for the first, 1.5 and 2.0 for
    the second. *)
Lemma failed_probe_gives_missing_witness :
  let i := {| now := round_float 7 0; ps1 := ps_fails;
              ps2 := ps_prints "1.5 2048" |} in
  let p := (round_float 3 (-1), round_float 2 0) in
  exists s,
    series_new 120 = Ok s /\
    get_metrics (ps1 i) 999 = Ok None /\
    get_metrics (ps2 i) 7 = Ok (Some p) /\
    tick 999 7 i s = Ok (append_samples (now i) (nan, nan) p s).
Proof.
  intros i p.
  destruct (series_new 120) as [s|] eqn:Hnew; [|discriminate Hnew].
  assert (get_metrics (ps1 i) 999 = Ok None) as H1 by reflexivity.
  assert (get_metrics (ps2 i) 7 = Ok (Some p)) as H2 by (vm_compute; reflexivity).
  exists s. split; [reflexivity|]. split; [exact H1|]. split; [exact H2|].
  exact (proj1 (failed_probe_gives_missing 999 7 i s) p H1 H2).
Defined.

(** Blank inputs give the defaults; [abc] for the interval raises. *)
Lemma prompts_default_when_empty_witness :
  label_wrapper (lit "") (lit "  ") = Ok (round_float 1 0, 120) /\
  label_wrapper (lit "abc") (lit "60") = Raise ValueError.
Proof.
  split.
  - exact (proj1 (prompts_default_when_empty (lit "") (lit "  "))
             eq_refl eq_refl).
  - apply (proj1 (proj2 (prompts_default_when_empty (lit "abc") (lit "60")))).
    + discriminate.
    + reflexivity.
Defined.

(** A failed command gives [None]. *)
Lemma get_metrics_never_raises_witness :
  query_result (ps_fails (py_str 999)) /\
  get_metrics ps_fails 999 = Ok None.
Proof.
  assert (query_result (ps_fails (py_str 999))) as Hq by reflexivity.
  split; [exact Hq|].
  exact (proj1 (proj2 (get_metrics_never_raises ps_fails 999 Hq))
           (CalledProcessError 1) eq_refl).
Defined.


(** ** More on the filtered view *)

Lemma contains_nil s : contains [] s = true.
Proof. by destruct s. Qed.

Lemma contains_app_l F G s : contains (F ++ G) s = true -> contains F s = true.
Proof.
  rewrite !contains_spec. intros (pre & post & ->).
  exists pre, (G ++ post). by rewrite <- !app_assoc.
Qed.

Lemma matches_app_l F G p :
  matches (lower (F ++ G)) p = true -> matches (lower F) p = true.
Proof.
  unfold matches, lower. rewrite map_app, !orb_true_iff.
  intros [[H|H]|H]; apply contains_app_l in H; auto.
Qed.

(** X1. The empty filter shows every candidate; a longer filter shows a
    subsequence of what its prefix shows; and filtering what the prefix
    shows gives what filtering all candidates gives. *)
Theorem filter_narrows (procs : list proc) (F G : str) :
  filtered_view procs [] = procs /\
  sublist (filtered_view procs (F ++ G)) (filtered_view procs F) /\
  filtered_view (filtered_view procs F) (F ++ G) = filtered_view procs (F ++ G).
Proof.
  unfold filtered_view. split; [|split].
  - change (lower []) with (@nil ascii).
    induction procs as [|p procs IH]; [done|]. simpl.
    unfold matches at 1. rewrite contains_nil. simpl. by rewrite IH.
  - induction procs as [|p procs IH]; simpl; [constructor|].
    destruct (matches (lower (F ++ G)) p) eqn:E.
    + apply matches_app_l in E. rewrite E. by constructor.
    + destruct (matches (lower F) p); [by constructor | done].
  - induction procs as [|p procs IH]; simpl; [done|].
    destruct (matches (lower F) p) eqn:E; simpl.
    + by rewrite IH.
    + rewrite IH. destruct (matches (lower (F ++ G)) p) eqn:E2; [|done].
      apply matches_app_l in E2. congruence.
Qed.

(** ** More on the selector loop *)

Lemma is_quit_test ch :
  is_quit ch <-> (ch =? ord "q") || (ch =? ord "Q") = true.
Proof. unfold is_quit. rewrite orb_true_iff, !Z.eqb_eq. tauto. Qed.

Lemma iteration_quit procs st ch :
  is_quit ch -> iteration procs st ch = Raise (SystemExit 0).
Proof.
  intros H. apply is_quit_test in H. unfold iteration, handle_key.
  by rewrite H.
Qed.



Lemma iteration_next_candidates procs st ch st' :
  iteration procs st ch = Ok (Next st') ->
  Forall (fun p => p ∈ procs) (selected st) ->
  Forall (fun p => p ∈ procs) (selected st').
Proof.
  intros H Hsub.
  destruct (decide (is_enter ch)) as [He|He].
  - destruct (iteration_enter procs st ch He) as [Heq _]. rewrite Heq in H.
    destruct (_ !! _) as [chosen|] eqn:El; cbv zeta in H.
    + destruct (Nat.eqb_spec (length (select chosen (selected st))) 2);
        [discriminate|].
      injection H as <-. cbn [selected]. unfold select.
      case_bool_decide; [done|]. apply Forall_app. split; [done|].
      apply Forall_singleton. apply list_elem_of_lookup_2 in El.
      by apply elem_of_filtered_view in El as [? _].
    + by injection H as <-.
  - rewrite is_enter_test in He. apply not_true_is_false in He.
    unfold iteration, handle_key in H. rewrite He in H.
    repeat (case_match; try discriminate); by injection H as <-.
Qed.

Lemma run_return procs keys : forall st sel,
  run procs keys st = Ok (Return sel) ->
  (length (selected st) <= 1)%nat ->
  Forall (fun p => p ∈ procs) (selected st) ->
  exists a b, sel = [a; b] /\ a <> b /\ a ∈ procs /\ b ∈ procs.
Proof.
  induction keys as [|ch keys IH]; intros st sel H Hlen Hsub; simpl in H.
  - discriminate.
  - destruct (iteration procs st ch) as [[st'|sel']|e] eqn:E; [| |discriminate].
    + eapply IH; [exact H | |].
      * by eapply iteration_next_selected.
      * by eapply iteration_next_candidates.
    + injection H as <-.
      apply iteration_return in E as (_ & chosen & Hl & -> & Hlen2).
      unfold select in *. case_bool_decide as Hin; [lia|].
      rewrite length_app in Hlen2. simpl in Hlen2.
      destruct (selected st) as [|a [|]] eqn:Es; simpl in *; try lia.
      exists a, chosen. split; [done|]. split; [|split].
      * intros ->. apply Hin. by left.
      * by inversion Hsub.
      * apply list_elem_of_lookup_2 in Hl.
        by apply elem_of_filtered_view in Hl as [? _].
Qed.

(** X3. What [process_selector] returns, for any candidates and keys, is a
    list of exactly two different entries of the candidate list; with
    fewer than two different candidates it never returns. *)
Theorem selector_returns_two_candidates (procs : list proc) (keys : list Z) :
  (forall sel, process_selector procs keys = Ok (Return sel) ->
     exists a b, sel = [a; b] /\ a <> b /\ a ∈ procs /\ b ∈ procs) /\
  ((forall a b, a ∈ procs -> b ∈ procs -> a = b) ->
   forall sel, process_selector procs keys <> Ok (Return sel)).
Proof.
  assert (forall sel, process_selector procs keys = Ok (Return sel) ->
            exists a b, sel = [a; b] /\ a <> b /\ a ∈ procs /\ b ∈ procs) as H.
  { intros sel Hr. eapply run_return; [exact Hr | simpl; lia | constructor]. }
  split; [exact H|].
  intros Hone sel Hr. destruct (H sel Hr) as (a & b & _ & Hne & Ha & Hb).
  by apply Hne, Hone.
Qed.

Lemma code_chr ch : 0 <= ch < 256 -> code (chr ch) = ch.
Proof.
  intros H. unfold code, chr. rewrite nat_ascii_embedding by lia. lia.
Qed.

(** The characters the filter can hold. *)
Lemma iteration_next_filter procs st ch st' (P : ascii -> Prop) :
  (forall k, is_printable k -> ~ is_quit k -> P (chr k)) ->
  iteration procs st ch = Ok (Next st') ->
  Forall P (filter_text st) ->
  Forall P (filter_text st') /\
  (length (filter_text st') <= S (length (filter_text st)))%nat.
Proof.
  intros HP H Hall.
  destruct (decide (is_quit ch)) as [Hq|Hq];
    [by rewrite iteration_quit in H|].
  destruct (decide (is_enter ch)) as [He|He].
  - destruct (iteration_enter procs st ch He) as [Heq _]. rewrite Heq in H.
    cbv zeta in H. repeat (case_match; try discriminate H);
      injection H as <-; (split; [done | cbn [filter_text present]; lia]).
  - pose proof Hq as Hq'. rewrite is_quit_test in Hq'.
    apply not_true_is_false in Hq'.
    rewrite is_enter_test in He. apply not_true_is_false in He.
    unfold iteration, handle_key in H. rewrite Hq', He in H.
    repeat (case_match; try discriminate H); injection H as <-;
      cbn [filter_text present]; try (split; [done | lia]).
    + split; [by apply Forall_take|]. unfold drop_last.
      rewrite length_take. lia.
    + split; [|rewrite length_app; simpl; lia].
      apply Forall_app. split; [done|]. apply Forall_singleton.
      apply HP; [|done]. unfold is_printable.
      match goal with
      | H : _ && _ = true |- _ =>
          apply andb_true_iff in H as [?%Z.leb_le ?%Z.leb_le]
      end. lia.
Qed.

(** X4. In every state the selector reaches, the filter holds only
    characters of the printable range 32..126, never the letter [q] or
    [Q], and at most one character for each key read. *)
Theorem filter_holds_typed_characters (procs : list proc) (keys : list Z)
    (st : selector_state) :
  process_selector procs keys = Ok (Next st) ->
  Forall (fun c => 32 <= code c <= 126 /\ code c <> ord "q" /\ code c <> ord "Q")
         (filter_text st) /\
  (length (filter_text st) <= length keys)%nat.
Proof.
  unfold process_selector.
  set (P := fun c => 32 <= code c <= 126 /\ code c <> ord "q" /\ code c <> ord "Q").
  assert (forall k, is_printable k -> ~ is_quit k -> P (chr k)) as HP.
  { intros k Hk Hq. unfold P, is_printable, is_quit in *.
    rewrite code_chr by lia. lia. }
  assert (forall st0, run procs keys st0 = Ok (Next st) ->
            Forall P (filter_text st0) ->
            Forall P (filter_text st) /\
            (length (filter_text st) <= length (filter_text st0) + length keys)%nat)
    as Hgen.
  { induction keys as [|ch keys IH]; intros st0 H Hall; simpl in H.
    - injection H as <-. split; [done | lia].
    - destruct (iteration procs st0 ch) as [[st1|sel]|e] eqn:E; try discriminate.
      destruct (iteration_next_filter _ _ _ _ P HP E Hall) as [Hall1 Hlen1].
      destruct (IH st1 H Hall1) as [Hall2 Hlen2].
      split; [done|]. simpl length. lia. }
  intros Hrun. destruct (Hgen init_state Hrun) as [H1 H2]; [constructor|].
  split; [exact H1 | exact H2].
Qed.

(** ** What the selector draws *)

(** X5. For every terminal height, view and cursor, each line of the
    drawing loop goes to a screen row between 4 and [h - 2] and shows an
    entry that exists: [view[i]] raises nothing; no more than [h - 5]
    lines are drawn; and with at least one row and a cursor inside the
    view, the line of the cursor is among them. *)
Theorem drawn_rows_in_view (h i : Z) (view : list proc) :
  let len := Z.of_nat (length view) in
  Forall (fun rj => 4 <= rj.1 <= h - 2 /\ 0 <= rj.2 < len /\
                    exists p, py_index view rj.2 = Ok p)
         (drawn_rows h len i) /\
  (length (drawn_rows h len i) <= Z.to_nat (h - 5))%nat /\
  (1 <= h - 5 -> 0 <= i < len -> exists row, (row, i) ∈ drawn_rows h len i).
Proof.
  intros len. unfold drawn_rows, viewport.
  set (m := h - 4 - 1).
  assert (1 <= m -> 0 <= m / 2 < m) as Hhalf.
  { intros Hm. split; [apply Z.div_pos; lia | apply Z.div_lt; lia]. }
  generalize dependent (m / 2). intros half Hhalf.
  set (top1 := Z.max 0 (i - half)).
  set (bottom := Z.min len (top1 + m)).
  set (top := Z.max 0 (bottom - m)).
  split; [|split].
  - apply Forall_lookup. intros k [r j] Hk.
    apply lookup_zip_Some in Hk as [Hr Hj].
    apply lookup_seqZ in Hr as [-> Hr]. apply lookup_seqZ in Hj as [-> _].
    cbn [fst snd]. assert (0 <= top + Z.of_nat k < len) as Hin by lia.
    split; [lia|]. split; [done|].
    destruct (py_index_in_range view _ Hin) as (p & _ & Hp). by exists p.
  - rewrite length_zip, !length_seqZ. lia.
  - intros Hm Hi. specialize (Hhalf ltac:(lia)).
    exists (4 + (i - top)). apply (list_elem_of_lookup_2 _ (Z.to_nat (i - top))).
    apply lookup_zip_Some. split; apply lookup_seqZ; lia.
Qed.

Lemma slice_to_nonneg {A} (n : Z) (l : list A) :
  0 <= n -> slice_to n l = take (Z.to_nat n) l.
Proof. intros H. unfold slice_to. by destruct (Z.ltb_spec n 0); [lia|]. Qed.

Lemma length_rjust w s : length (rjust w s) = (w `max` length s)%nat.
Proof. unfold rjust. rewrite length_app, length_replicate. lia. Qed.

Lemma length_ljust w s : length (ljust w s) = (w `max` length s)%nat.
Proof. unfold ljust. rewrite length_app, length_replicate. lia. Qed.

(** X6. The text handed to [addstr] for a terminal of [w >= 1] columns
    has at most [w - 1] characters. With at least 30 columns, a pid of at
    most 6 characters and a short name of at most 18, the slice
    [line[:w - 1]] cuts nothing: the line has 28 characters and the
    command, itself cut to [w - 30]. *)
Theorem drawn_line_fits (w : Z) (p : proc) :
  (1 <= w -> Z.of_nat (length (drawn_line w p)) <= w - 1) /\
  (30 <= w ->
   (length (py_str (pid_of p)) <= 6)%nat -> (length (comm_of p) <= 18)%nat ->
   drawn_line w p = format_line w p /\
   Z.of_nat (length (format_line w p)) =
   28 + Z.min (Z.of_nat (length (args_of p))) (w - 30)).
Proof.
  split.
  - intros Hw. unfold drawn_line. rewrite slice_to_nonneg by lia.
    rewrite length_take. lia.
  - intros Hw Hpid Hcomm.
    assert (Z.of_nat (length (format_line w p)) =
            28 + Z.min (Z.of_nat (length (args_of p))) (w - 30)) as Hlen.
    { unfold format_line. rewrite slice_to_nonneg by lia.
      rewrite !length_app, length_rjust, length_ljust, length_take.
      change (length (lit "  ")) with 2%nat. lia. }
    split; [|exact Hlen]. unfold drawn_line.
    rewrite slice_to_nonneg by lia. apply take_ge. lia.
Qed.

(** ** Stripping and splitting *)

Arguments is_space : simpl never.

Lemma lstrip_blanks g x :
  Forall (fun c => is_space c = true) g ->
  (forall c x', x = c :: x' -> is_space c = false) ->
  lstrip (g ++ x) = x.
Proof.
  intros Hg Hx. induction Hg as [|c g Hc Hg IH]; simpl.
  - destruct x as [|c x']; [done|]. simpl. by rewrite (Hx c x').
  - by rewrite Hc.
Qed.

Lemma lstrip_decomp s :
  exists g, Forall (fun c => is_space c = true) g /\ s = g ++ lstrip s /\
    forall c x', lstrip s = c :: x' -> is_space c = false.
Proof.
  induction s as [|c s (g & Hg & Hs & Hhead)]; simpl.
  - by exists [].
  - destruct (is_space c) eqn:Ec.
    + exists (c :: g). split; [by constructor|]. split; [by rewrite Hs at 1|done].
    + exists []. split; [constructor|]. split; [done|]. by intros ? ? [= <- _].
Qed.

Lemma span_word_app w rest :
  no_space w -> (forall c r, rest = c :: r -> is_space c = true) ->
  span_word (w ++ rest) = (w, rest).
Proof.
  intros Hw Hrest. induction Hw as [|c w Hc Hw IH]; simpl.
  - destruct rest as [|c r]; [done|]. simpl. by rewrite (Hrest c r).
  - by rewrite Hc, IH.
Qed.

Lemma span_word_decomp s :
  exists w rest, span_word s = (w, rest) /\ s = w ++ rest /\ no_space w /\
    forall c r, rest = c :: r -> is_space c = true.
Proof.
  induction s as [|c s (w & rest & Hsp & Hs & Hw & Hrest)]; simpl.
  - exists [], []. by repeat split; [constructor|].
  - destruct (is_space c) eqn:Ec.
    + exists [], (c :: s). repeat split; [constructor|]. by intros ? ? [= <- _].
    + rewrite Hsp. exists (c :: w), rest. repeat split; [by rewrite Hs | |done].
      by constructor.
Qed.

(** A string whose last character is no white space does not end in a
    run of white space. *)
Lemma trimmed_no_blanks_end t u g :
  trimmed t -> t = u ++ g -> Forall (fun c => is_space c = true) g -> g = [].
Proof.
  intros [_ Hlast] Ht Hg. destruct g as [|c g _] using rev_ind; [done|].
  exfalso. apply Forall_app in Hg as [_ Hc].
  apply Forall_inv in Hc. cbv beta in Hc.
  rewrite app_assoc in Ht. by rewrite (Hlast _ _ Ht) in Hc.
Qed.

Lemma strip_trimmed s : trimmed (strip s).
Proof.
  unfold strip, rstrip.
  destruct (lstrip_decomp s) as (g & _ & _ & Hhead).
  destruct (lstrip_decomp (rev (lstrip s))) as (k & _ & Hk & Hhead2).
  set (u := lstrip (rev (lstrip s))) in *.
  assert (lstrip s = rev u ++ rev k) as Ht.
  { rewrite <- rev_app_distr, <- Hk. by rewrite rev_involutive. }
  split.
  - intros c s' Hu. rewrite Hu in Ht. by apply (Hhead c (s' ++ rev k)).
  - intros c s' Hu. apply (Hhead2 c (rev s')).
    rewrite <- (rev_involutive u), Hu, rev_app_distr. done.
Qed.

(** The three shapes of a stripped line under [split(None, 2)]. *)
Lemma split_max_2_cases t :
  t <> [] -> trimmed t ->
  (field t /\ split_max 2 t = [t]) \/
  (exists a g b, field a /\ blanks g /\ field b /\ t = a ++ g ++ b /\
     split_max 2 t = [a; b]) \/
  (exists a g b g2 c, field a /\ blanks g /\ field b /\ blanks g2 /\
     c <> [] /\ trimmed c /\ t = a ++ g ++ b ++ g2 ++ c /\
     split_max 2 t = [a; b; c]).
Proof.
  intros Hne Ht. pose proof Ht as [Hhead Hlast].
  destruct t as [|c0 t0]; [done|]. pose proof (Hhead c0 t0 eq_refl) as Hc0.
  cbn [split_max lstrip]. rewrite Hc0.
  destruct (span_word_decomp (c0 :: t0)) as (a & rest & Hsp & Hs & Ha & Hrest).
  rewrite Hsp.
  assert (a <> []) as Hane.
  { intros ->. simpl in Hs. subst rest. by rewrite (Hrest c0 t0 eq_refl) in Hc0. }
  destruct (lstrip_decomp rest) as (g & Hg & Hr & Hh1).
  cbn [split_max]. destruct (lstrip rest) as [|c1 r1] eqn:E1.
  - left. rewrite app_nil_r in Hr. subst rest.
    rewrite (trimmed_no_blanks_end _ a g Ht Hs Hg) in Hs. rewrite app_nil_r in Hs.
    rewrite Hs. by split.
  - right.
    assert (g <> []) as Hgne.
    { intros ->. simpl in Hr. subst rest.
      pose proof (Hrest c1 r1 eq_refl); pose proof (Hh1 c1 r1 eq_refl); congruence. }
    destruct (span_word_decomp (c1 :: r1)) as (b & rest2 & Hsp2 & Hs2 & Hb & Hrest2).
    rewrite Hsp2.
    assert (b <> []) as Hbne.
    { intros ->. simpl in Hs2. subst rest2.
      pose proof (Hrest2 c1 r1 eq_refl); pose proof (Hh1 c1 r1 eq_refl); congruence. }
    destruct (lstrip_decomp rest2) as (g2 & Hg2 & Hr2 & Hh2).
    destruct (lstrip rest2) as [|c2 r2] eqn:E2.
    + left. rewrite app_nil_r in Hr2. subst rest2.
      assert (c0 :: t0 = (a ++ g ++ b) ++ g2) as Hs'
        by (rewrite Hs, Hr, Hs2, <- !app_assoc; done).
      pose proof (trimmed_no_blanks_end _ _ g2 Ht Hs' Hg2) as ->.
      rewrite app_nil_r in Hs'. exists a, g, b. by repeat split.
    + right.
      assert (g2 <> []) as Hg2ne.
      { intros ->. simpl in Hr2. subst rest2.
        pose proof (Hrest2 c2 r2 eq_refl); pose proof (Hh2 c2 r2 eq_refl); congruence. }
      exists a, g, b, g2, (c2 :: r2).
      assert (c0 :: t0 = a ++ g ++ b ++ g2 ++ c2 :: r2) as Hs'
        by (rewrite Hs, Hr, Hs2, Hr2; done).
      assert (trimmed (c2 :: r2)) as Htc.
      { split.
        - intros x r [= <- <-]. apply (Hh2 _ _ eq_refl).
        - intros x c' Hc'. apply (Hlast x (a ++ g ++ b ++ g2 ++ c')).
          rewrite Hs', Hc', <- !app_assoc. done. }
      split_and!; done.
Qed.

Lemma field_head f c f' : field f -> f = c :: f' -> is_space c = false.
Proof. intros [_ Hf] ->. by inversion Hf. Qed.

Lemma blanks_head g c g' : blanks g -> g = c :: g' -> is_space c = true.
Proof. intros [_ Hg] ->. by inversion Hg. Qed.

Lemma lstrip_app_blanks g x :
  Forall (fun c => is_space c = true) g -> lstrip (g ++ x) = lstrip x.
Proof. induction 1 as [|c g Hc Hg IH]; simpl; [done | by rewrite Hc]. Qed.

Lemma split_max_blanks n g x :
  Forall (fun c => is_space c = true) g -> split_max n (g ++ x) = split_max n x.
Proof. intros Hg. destruct n; cbn [split_max]; by rewrite lstrip_app_blanks. Qed.

Lemma split_max_nil n : split_max n [] = [].
Proof. by destruct n. Qed.

Lemma split_max_field n a rest :
  field a -> (forall c r, rest = c :: r -> is_space c = true) ->
  split_max (S n) (a ++ rest) = a :: split_max n rest.
Proof.
  intros [Hne Ha] Hrest. destruct a as [|c a']; [done|].
  pose proof (Forall_inv Ha) as Hc. cbv beta in Hc.
  cbn [split_max app lstrip]. rewrite Hc.
  change (c :: a' ++ rest) with ((c :: a') ++ rest).
  by rewrite span_word_app.
Qed.

Lemma split_max_0 c :
  c <> [] -> (forall x r, c = x :: r -> is_space x = false) ->
  split_max 0 c = [c].
Proof.
  intros Hne Hh. destruct c as [|x r]; [done|].
  cbn [split_max lstrip]. by rewrite (Hh x r).
Qed.

(** The fields [split(None, 2)] gives for a line of two or of three
    fields. *)
Lemma split_max_2_two a g b :
  field a -> blanks g -> field b -> split_max 2 (a ++ g ++ b) = [a; b].
Proof.
  intros Ha Hg Hb.
  rewrite split_max_field; [|done|].
  2:{ intros c r H. destruct Hg as [Hgne Hg].
      destruct g as [|c' g']; [done|]. injection H as -> _.
      exact (Forall_inv Hg). }
  rewrite split_max_blanks by (by destruct Hg).
  rewrite <- (app_nil_r b) at 1. rewrite split_max_field; [|done|done].
  by rewrite split_max_nil.
Qed.

Lemma split_max_2_three a g b g2 c :
  field a -> blanks g -> field b -> blanks g2 ->
  c <> [] -> trimmed c ->
  split_max 2 (a ++ g ++ b ++ g2 ++ c) = [a; b; c].
Proof.
  intros Ha Hg Hb Hg2 Hc [Hch _].
  rewrite split_max_field; [|done|].
  2:{ intros x r H. destruct Hg as [Hgne Hg].
      destruct g as [|c' g']; [done|]. injection H as -> _.
      exact (Forall_inv Hg). }
  rewrite split_max_blanks by (by destruct Hg).
  rewrite split_max_field; [|done|].
  2:{ intros x r H. destruct Hg2 as [Hgne Hg2'].
      destruct g2 as [|c' g']; [done|]. injection H as -> _.
      exact (Forall_inv Hg2'). }
  rewrite split_max_blanks by (by destruct Hg2).
  by rewrite split_max_0.
Qed.

(** ** The process lister *)

(** The lines that make an entry, and the entry they make. *)
Lemma parse_ps_line_shape (line : str) (pid : Z) (comm args : str) :
  parse_ps_line line = Ok (Some (pid, comm, args)) <->
  exists pid_s g,
    field pid_s /\ py_int pid_s = Ok pid /\ blanks g /\ field comm /\
    ((strip line = pid_s ++ g ++ comm /\ args = comm) \/
     (exists g2, blanks g2 /\ args <> [] /\ trimmed args /\
        strip line = pid_s ++ g ++ comm ++ g2 ++ args)).
Proof.
  unfold parse_ps_line. pose proof (strip_trimmed line) as Ht. split.
  - intros H. destruct (strip line) as [|c0 t0] eqn:Es; [discriminate H|].
    destruct (split_max_2_cases (c0 :: t0)) as
      [[_ Hsp] | [(a & g & b & Ha & Hg & Hb & Heq & Hsp)
                 | (a & g & b & g2 & c & Ha & Hg & Hb & Hg2 & Hc & Htc & Heq & Hsp)]];
      [done | done | | |]; rewrite Hsp in H; [discriminate H | |].
    + destruct (py_int a) as [n|] eqn:Ei; [|discriminate H].
      injection H as <- <- <-. exists a, g. split_and!; try done. by left.
    + destruct (py_int a) as [n|] eqn:Ei; [|discriminate H].
      injection H as <- <- <-. exists a, g. split_and!; try done.
      right. by exists g2.
  - intros (pid_s & g & Hp & Hi & Hg & Hc & [[Heq ->] | (g2 & Hg2 & Ha & Hta & Heq)]).
    + rewrite Heq. destruct (pid_s ++ g ++ comm) as [|c0 t0] eqn:E.
      { destruct Hp as [Hp _]. by destruct pid_s. }
      rewrite <- E, split_max_2_two by done. by rewrite Hi.
    + rewrite Heq. destruct (pid_s ++ g ++ comm ++ g2 ++ args) as [|c0 t0] eqn:E.
      { destruct Hp as [Hp _]. by destruct pid_s. }
      rewrite <- E, split_max_2_three by done. by rewrite Hi.
Qed.

(** X7. [list_processes] makes an entry of a line exactly when the line,
    stripped, is a first field that [int] accepts, white space, a second
    field and either nothing more, in which case the command is the short
    name, or white space and a rest, which is the command, kept as it is
    with its inner white space. *)
Theorem parse_ps_line_fields (line : str) (pid : Z) (comm args : str) :
  parse_ps_line line = Ok (Some (pid, comm, args)) <->
  exists pid_s g,
    field pid_s /\ py_int pid_s = Ok pid /\ blanks g /\ field comm /\
    ((strip line = pid_s ++ g ++ comm /\ args = comm) \/
     (exists g2, blanks g2 /\ args <> [] /\ trimmed args /\
        strip line = pid_s ++ g ++ comm ++ g2 ++ args)).
Proof. apply parse_ps_line_shape. Qed.

Lemma parse_ps_line_raise line e :
  parse_ps_line line = Raise e ->
  e = ValueError /\
  exists pid_s comm rest,
    split_max 2 (strip line) = pid_s :: comm :: rest /\
    py_int pid_s = Raise ValueError.
Proof.
  unfold parse_ps_line. destruct (strip line) as [|c0 t0]; [done|].
  destruct (split_max 2 (c0 :: t0)) as [|pid_s [|comm rest]]; [done..|].
  destruct (py_int_cases pid_s) as [[n Hn] | Hn]; rewrite Hn; [done|].
  intros [= <-]. split; [done|]. by exists pid_s, comm, rest.
Qed.

Lemma parse_ps_lines_raise lines e :
  parse_ps_lines lines = Raise e <->
  exists line, line ∈ lines /\ parse_ps_line line = Raise e.
Proof.
  induction lines as [|l lines IH]; simpl.
  - split; [done | intros (? & H & _); by apply elem_of_nil in H].
  - destruct (parse_ps_line l) as [o|e'] eqn:El; cbn [bind].
    + destruct (parse_ps_lines lines) as [procs|e'] eqn:Er; cbn [bind].
      * split; [done|]. intros (line & Hin & Hr).
        apply elem_of_cons in Hin as [-> | Hin]; [congruence|].
        destruct IH as [_ IH].
        specialize (IH (ex_intro _ line (conj Hin Hr))). discriminate IH.
      * split.
        -- intros [= ->]. destruct IH as [IH _].
           destruct (IH eq_refl) as (line & Hin & Hr).
           exists line. split; [by right | done].
        -- intros (line & Hin & Hr).
           apply elem_of_cons in Hin as [-> | Hin]; [congruence|].
           destruct IH as [_ IH].
           by rewrite (IH (ex_intro _ line (conj Hin Hr))).
    + split.
      * intros [= ->]. exists l. split; [by left | done].
      * intros (line & Hin & Hr).
        apply parse_ps_line_raise in Hr as [-> _].
        by apply parse_ps_line_raise in El as [-> _].
Qed.

Lemma parse_ps_lines_entries lines procs :
  parse_ps_lines lines = Ok procs ->
  Forall (fun p => exists line, line ∈ lines /\ parse_ps_line line = Ok (Some p))
         procs.
Proof.
  revert procs. induction lines as [|l lines IH]; intros procs H; simpl in H.
  - injection H as <-. constructor.
  - destruct (parse_ps_line l) as [o|] eqn:El; [|done]. cbn [bind] in H.
    destruct (parse_ps_lines lines) as [procs'|] eqn:Er; [|done].
    cbn [bind] in H. injection H as <-.
    assert (Forall (fun p => exists line, line ∈ l :: lines /\
                       parse_ps_line line = Ok (Some p)) procs') as Hrest.
    { eapply Forall_impl; [by apply IH|]. intros p (line & Hin & Hp).
      exists line. split; [by right | done]. }
    destruct o as [p|]; [|done]. constructor; [|done].
    exists l. split; [by left | done].
Qed.

(** X8. [list_processes] catches nothing: an exception of the [ps] command
    is raised on, and so is the [ValueError] of [int] on the first field
    of a line of two or more fields; it raises [ValueError] exactly when
    the output has such a line, and nothing else once [ps] has given its
    output. The selector then raises the same before it reads a key. *)
Theorem list_processes_errors (ps : result str) (limit : Z) :
  (forall e, ps = Raise e -> list_processes ps limit = Raise e) /\
  (forall out e, ps = Ok out ->
     (list_processes ps limit = Raise e <->
      e = ValueError /\
      exists line pid_s comm rest,
        line ∈ splitlines out /\
        split_max 2 (strip line) = pid_s :: comm :: rest /\
        py_int pid_s = Raise ValueError)) /\
  (forall e keys, list_processes ps 400 = Raise e ->
     select_processes ps keys = Raise e).
Proof.
  split; [|split].
  - by intros e ->.
  - intros out e ->. unfold list_processes. cbn [bind].
    destruct (parse_ps_lines (splitlines out)) as [procs|e'] eqn:Ep; cbn [bind].
    + split; [done|]. intros (-> & line & pid_s & comm & rest & Hin & Hsp & Hi).
      assert (parse_ps_lines (splitlines out) = Raise ValueError) as Hr.
      { apply parse_ps_lines_raise. exists line. split; [done|].
        unfold parse_ps_line. destruct (strip line) as [|c0 t0]; [done|].
        by rewrite Hsp, Hi. }
      congruence.
    + pose proof Ep as Ep'.
      apply parse_ps_lines_raise in Ep' as (line & Hin & Hr).
      apply parse_ps_line_raise in Hr as (-> & pid_s & comm & rest & Hsp & Hi).
      split.
      * intros [= <-]. split; [done|]. by exists line, pid_s, comm, rest.
      * by intros [-> _].
  - intros e keys H. unfold select_processes. by rewrite H.
Qed.

Lemma insert_desc_perm p l : insert_desc p l ≡ₚ p :: l.
Proof.
  induction l as [|q l IH]; simpl; [done|].
  destruct (pid_of p <? pid_of q); [|done].
  by rewrite IH, Permutation_swap.
Qed.

Lemma sort_by_pid_desc_perm l : sort_by_pid_desc l ≡ₚ l.
Proof.
  unfold sort_by_pid_desc. induction l as [|p l IH]; simpl; [done|].
  by rewrite insert_desc_perm, IH.
Qed.

Lemma insert_desc_falls p l : pids_fall l -> pids_fall (insert_desc p l).
Proof.
  unfold pids_fall. induction 1 as [|q l Hl IH Hq]; simpl.
  - by repeat constructor.
  - destruct (Z.ltb_spec (pid_of p) (pid_of q)).
    + constructor; [done|]. rewrite insert_desc_perm.
      constructor; [lia | done].
    + constructor; [by constructor|]. constructor; [lia|].
      eapply Forall_impl; [exact Hq|]. intros x Hx. simpl in Hx. lia.
Qed.

Lemma sort_by_pid_desc_falls l : pids_fall (sort_by_pid_desc l).
Proof.
  unfold sort_by_pid_desc. induction l as [|p l IH]; simpl.
  - constructor.
  - by apply insert_desc_falls.
Qed.

(** Entries of one pid keep the order they had. *)
Lemma insert_desc_stable k p l :
  List.filter (fun x => pid_of x =? k) (insert_desc p l) =
  List.filter (fun x => pid_of x =? k) (p :: l).
Proof.
  induction l as [|q l IH]; [done|]. cbn [insert_desc].
  destruct (Z.ltb_spec (pid_of p) (pid_of q)); [|done].
  cbn [List.filter] in *. rewrite IH.
  destruct (Z.eqb_spec (pid_of q) k), (Z.eqb_spec (pid_of p) k); (done || lia).
Qed.

Lemma sort_by_pid_desc_stable k l :
  List.filter (fun x => pid_of x =? k) (sort_by_pid_desc l) =
  List.filter (fun x => pid_of x =? k) l.
Proof.
  unfold sort_by_pid_desc. induction l as [|p l IH]; [done|].
  cbn [foldr]. rewrite insert_desc_stable. cbn [List.filter]. by rewrite IH.
Qed.

Lemma slice_to_take {A} (n : Z) (l : list A) :
  exists m, slice_to n l = take m l /\ (0 <= n -> m = Z.to_nat n).
Proof.
  unfold slice_to. destruct (Z.ltb_spec n 0); eexists; (split; [done | lia || done]).
Qed.

(** X9. What [list_processes] returns is in the order of falling pids and,
    for a limit that is not negative, has no more entries than the
    limit; each entry comes from a line of the output; the entries cut
    off by the limit have no greater pid than any entry kept; and when
    the limit cuts nothing, the result is a rearrangement of the entries
    read in which entries of the same pid keep their order. *)
Theorem list_processes_sorted (ps : result str) (limit : Z) (l : list proc) :
  list_processes ps limit = Ok l ->
  exists out procs,
    ps = Ok out /\ parse_ps_lines (splitlines out) = Ok procs /\
    pids_fall l /\
    (0 <= limit -> Z.of_nat (length l) <= limit) /\
    (forall p, p ∈ l ->
       exists line, line ∈ splitlines out /\ parse_ps_line line = Ok (Some p)) /\
    (exists rest, l ++ rest ≡ₚ procs /\
       forall p q, p ∈ l -> q ∈ rest -> pid_of q <= pid_of p) /\
    (Z.of_nat (length procs) <= limit ->
     l ≡ₚ procs /\
     forall k, List.filter (fun x => pid_of x =? k) l =
               List.filter (fun x => pid_of x =? k) procs).
Proof.
  unfold list_processes. destruct ps as [out|]; [|done]. cbn [bind].
  destruct (parse_ps_lines (splitlines out)) as [procs|] eqn:Ep; [|done].
  cbn [bind]. intros [= <-]. exists out, procs. split; [done|]. split; [done|].
  destruct (slice_to_take limit (sort_by_pid_desc procs)) as (m & -> & Hm).
  pose proof (sort_by_pid_desc_falls procs) as Hfall.
  pose proof (sort_by_pid_desc_perm procs) as Hperm.
  rewrite <- (take_drop m (sort_by_pid_desc procs)) in Hfall.
  apply StronglySorted_app in Hfall as (Hbetween & Hl & _).
  split; [exact Hl|]. split; [|split; [|split]].
  - intros Hlim. rewrite length_take, (Hm Hlim). lia.
  - intros p Hp. apply parse_ps_lines_entries in Ep.
    rewrite Forall_forall in Ep. apply Ep.
    rewrite <- Hperm. apply elem_of_take in Hp as (j & Hj & _).
    by eapply list_elem_of_lookup_2.
  - exists (drop m (sort_by_pid_desc procs)). split; [by rewrite take_drop|].
    intros p q Hp Hq. by apply Hbetween.
  - intros Hlen. assert (0 <= limit) as Hlim by lia.
    rewrite take_ge.
    + split; [done|]. intros k. apply sort_by_pid_desc_stable.
    + rewrite Hperm, (Hm Hlim). lia.
Qed.

(** ** Pids as text *)

Lemma int_digits_uint_acc d : forall (acc : positive) (prev : ascii),
  is_digit prev = true ->
  int_digits (Some prev) (Z.pos acc)
    (list_ascii_of_string (NilEmpty.string_of_uint d))
  = Some (Z.pos (Pos.of_uint_acc d acc)).
Proof.
  induction d; intros acc prev Hprev; cbn [NilEmpty.string_of_uint
    list_ascii_of_string int_digits Pos.of_uint_acc];
    [by rewrite Hprev | ..];
    (match goal with
     | |- context [is_digit ?c] => change (is_digit c) with true; cbv iota
     end;
     match goal with
     | |- int_digits _ ?v _ = Some (Z.pos (Pos.of_uint_acc _ ?a)) =>
         replace v with (Z.pos a)
           by (match goal with
               | |- context [digit_value ?c] =>
                   let k := eval vm_compute in (digit_value c) in
                   change (digit_value c) with k
               end; lia)
     end; by apply IHd).
Qed.

Lemma int_digits_uint d : forall prev,
  is_digit prev = true ->
  int_digits (Some prev) 0 (list_ascii_of_string (NilEmpty.string_of_uint d))
  = Some (Z.of_N (Pos.of_uint d)).
Proof.
  induction d; intros prev Hprev; cbn [NilEmpty.string_of_uint
    list_ascii_of_string int_digits Pos.of_uint];
    [by rewrite Hprev | ..];
    match goal with
    | |- context [is_digit ?c] => change (is_digit c) with true; cbv iota
    end;
    match goal with
    | |- context [digit_value ?c] =>
        let k := eval vm_compute in (digit_value c) in
        change (digit_value c) with k
    end;
    [by apply IHd | ..];
    match goal with
    | |- int_digits _ ?v _ = Some (Z.of_N (N.pos (Pos.of_uint_acc _ ?a))) =>
        change v with (Z.pos a)
    end; by apply int_digits_uint_acc.
Qed.

Lemma int_digits_uint_start d :
  d <> Decimal.Nil ->
  int_digits None 0 (list_ascii_of_string (NilEmpty.string_of_uint d))
  = Some (Z.of_N (Pos.of_uint d)).
Proof.
  intros Hd. rewrite <- (int_digits_uint d "0"%char eq_refl).
  by destruct d.
Qed.

(** The characters of a rendered number: digits, and the sign. *)
Lemma string_of_uint_plain d :
  Forall (fun c => is_digit c = true)
         (list_ascii_of_string (NilEmpty.string_of_uint d)).
Proof. induction d; simpl; by constructor. Qed.

Lemma is_digit_plain c :
  is_digit c = true ->
  is_space c = false /\ is_num_space c = false /\
  (code c =? 45) = false /\ (code c =? 43) = false.
Proof.
  unfold is_digit, is_space, is_num_space. intros H.
  apply andb_true_iff in H as [H1%Z.leb_le H2%Z.leb_le].
  repeat match goal with
         | |- context [?a <=? ?b] => destruct (Z.leb_spec a b)
         | |- context [?a =? ?b] => destruct (Z.eqb_spec a b)
         end; (done || lia).
Qed.

Lemma lstrip_num_head c s :
  is_num_space c = false -> lstrip_num (c :: s) = c :: s.
Proof. intros H. simpl. by rewrite H. Qed.

Lemma strip_num_plain s :
  Forall (fun c => is_num_space c = false) s -> strip_num s = s.
Proof.
  intros Hs. unfold strip_num.
  assert (forall l, Forall (fun c => is_num_space c = false) l ->
            lstrip_num l = l) as Hl.
  { intros [|c l] H; [done|]. apply lstrip_num_head. by inversion H. }
  rewrite (Hl s Hs), Hl by (by apply Forall_rev).
  apply rev_involutive.
Qed.

Lemma py_str_cases n :
  exists d, d <> Decimal.Nil /\ Z.of_N (Pos.of_uint d) = Z.abs n /\
    py_str n =
    (if n <? 0 then ["-"%char] else []) ++
    list_ascii_of_string (NilEmpty.string_of_uint d).
Proof.
  unfold py_str. destruct n as [|p|p]; simpl.
  - by exists (Decimal.D0 Decimal.Nil).
  - exists (Pos.to_uint p). split; [apply Unsigned.to_uint_nonnil|].
    split; [by rewrite Unsigned.of_to | done].
  - exists (Pos.to_uint p). split; [apply Unsigned.to_uint_nonnil|].
    split; [by rewrite Unsigned.of_to | done].
Qed.

(** Reading the text of a number gives the number back. *)
Lemma py_int_py_str (n : Z) :
  py_int (py_str n) = Ok n /\ field (py_str n).
Proof.
  destruct (py_str_cases n) as (d & Hd & Hval & Hstr).
  pose proof (string_of_uint_plain d) as Hdig.
  set (ds := list_ascii_of_string (NilEmpty.string_of_uint d)) in *.
  assert (ds <> []) as Hne by (subst ds; by destruct d).
  assert (Forall (fun c => is_num_space c = false) (py_str n)) as Hns.
  { rewrite Hstr. apply Forall_app. split.
    - destruct (n <? 0); by repeat constructor.
    - eapply Forall_impl; [exact Hdig|]. intros c Hc.
      by apply is_digit_plain in Hc as (_ & ? & _). }
  split.
  - unfold py_int. rewrite strip_num_plain by done. rewrite Hstr.
    destruct (Z.ltb_spec n 0).
    + cbn [app read_sign]. change (code "-" =? 45) with true. cbv iota.
      subst ds. rewrite int_digits_uint_start by done. f_equal. lia.
    + cbn [app]. destruct ds as [|c ds'] eqn:Eds; [done|].
      pose proof (Forall_inv Hdig) as Hc. cbv beta in Hc.
      apply is_digit_plain in Hc as (_ & _ & H45 & H43).
      cbn [read_sign]. rewrite H45, H43. rewrite <- Eds. subst ds.
      rewrite int_digits_uint_start by done. f_equal. lia.
  - split.
    + rewrite Hstr. destruct (n <? 0); [done|]. by destruct ds.
    + unfold no_space. rewrite Hstr. apply Forall_app. split.
      * destruct (n <? 0); by repeat constructor.
      * eapply Forall_impl; [exact Hdig|]. intros c Hc.
        by apply is_digit_plain in Hc as (? & _).
Qed.


Lemma lstrip_trimmed t : trimmed t -> lstrip t = t.
Proof.
  intros [Hh _]. destruct t as [|c t']; [done|]. simpl.
  by rewrite (Hh c t').
Qed.

Lemma strip_of_trimmed t : trimmed t -> strip t = t.
Proof.
  intros Ht. unfold strip, rstrip. rewrite (lstrip_trimmed t Ht).
  rewrite lstrip_trimmed; [apply rev_involutive|].
  destruct Ht as [Hh Hl]. split.
  - intros c s' H. apply (Hl c (rev s')).
    by rewrite <- (rev_involutive t), H.
  - intros c s' H. apply (Hh c (rev s')).
    by rewrite <- (rev_involutive t), H, rev_app_distr.
Qed.

(** X11. A line made of the text of a pid, white space, a short name
    without white space, white space and a command reads back as that
    pid, that short name and that command. *)
Theorem ps_line_round_trip (pid : Z) (comm args g g2 : str) :
  blanks g -> field comm -> blanks g2 -> args <> [] -> trimmed args ->
  parse_ps_line (py_str pid ++ g ++ comm ++ g2 ++ args)
  = Ok (Some (pid, comm, args)).
Proof.
  intros Hg Hc Hg2 Ha Hta.
  destruct (py_int_py_str pid) as [Hint Hfield].
  apply parse_ps_line_shape. exists (py_str pid), g.
  split_and!; try done. right. exists g2. split_and!; try done.
  apply strip_of_trimmed. split.
  - intros c s' H. destruct Hfield as [Hne Hns].
    destruct (py_str pid) as [|c' p']; [done|]. injection H as <- _.
    exact (Forall_inv Hns).
  - intros c s' H. destruct Hta as [_ Hl].
    destruct args as [|x args' _] using rev_ind; [done|].
    rewrite !app_assoc in H. apply app_inj_tail in H as [_ <-].
    by apply (Hl x args').
Qed.

(** ** More on the probe and the sampling loop *)




(** X13. The deques stay aligned: after a completed run from new deques,
    the elements at one index of the five deques are the time and the
    samples of one and the same tick, the tick [k - min k N + j] for the
    index [j]. *)
Theorem series_rows_are_ticks (N pid1 pid2 : Z) (inputs : list tick_input)
    (s0 s : series) (j : nat) :
  series_new N = Ok s0 ->
  run_ticks pid1 pid2 inputs s0 = Ok s ->
  (j < length inputs `min` Z.to_nat N)%nat ->
  exists i p,
    inputs !! (length inputs - Z.to_nat N + j)%nat = Some i /\
    tick_samples pid1 pid2 i = Ok p /\
    items (t s) !! j = Some (now i) /\
    items (cpu1 s) !! j = Some p.1.1 /\ items (mem1 s) !! j = Some p.1.2 /\
    items (cpu2 s) !! j = Some p.2.1 /\ items (mem2 s) !! j = Some p.2.2.
Proof.
  intros Hnew Hrun Hj.
  destruct (run_ticks_most_recent _ _ _ _ _ _ Hnew Hrun)
    as (samples & HF & Ht & Hc1 & Hm1 & Hc2 & Hm2).
  pose proof (Forall2_length _ _ _ HF) as Hlen.
  set (o := (length inputs - Z.to_nat N + j)%nat).
  destruct (lookup_lt_is_Some_2 inputs o) as [i Hi]; [lia|].
  destruct (Forall2_lookup_l _ _ _ _ _ HF Hi) as (p & Hp & Htick).
  exists i, p. split; [done|]. split; [done|].
  rewrite Ht, Hc1, Hm1, Hc2, Hm2. unfold most_recent.
  rewrite !lookup_drop, !length_fmap, <- Hlen. fold o.
  rewrite !list_lookup_fmap, Hi, Hp. done.
Qed.


Lemma split_aux_word cur w rest :
  no_space w -> split_aux cur (w ++ rest) = split_aux (rev w ++ cur) rest.
Proof.
  intros Hw. revert cur. induction Hw as [|c w Hc Hw IH]; intros cur; [done|].
  cbn [app split_aux]. rewrite Hc, IH. cbn [rev]. by rewrite <- app_assoc.
Qed.

Lemma split_aux_blanks g rest :
  Forall (fun c => is_space c = true) g ->
  split_aux [] (g ++ rest) = split_aux [] rest.
Proof. induction 1 as [|c g Hc Hg IH]; [done|]. cbn [app split_aux]. by rewrite Hc. Qed.

Lemma split_aux_end_word cur g rest :
  cur <> [] -> blanks g ->
  split_aux cur (g ++ rest) = rev cur :: split_aux [] rest.
Proof.
  intros Hcur [Hne Hg]. destruct g as [|c g]; [done|].
  pose proof (Forall_inv Hg) as Hc. cbv beta in Hc.
  cbn [app split_aux]. rewrite Hc. destruct cur; [done|].
  by rewrite split_aux_blanks by (by inversion Hg).
Qed.

Lemma split_two_fields a g b :
  field a -> blanks g -> field b -> split (a ++ g ++ b) = [a; b].
Proof.
  intros [Hane Ha] Hg [Hbne Hb]. unfold split.
  rewrite split_aux_word, app_nil_r by done.
  rewrite split_aux_end_word; [|by destruct a using rev_ind;
    [|rewrite rev_app_distr] | done].
  rewrite rev_involutive. rewrite <- (app_nil_r b) at 1.
  rewrite split_aux_word, app_nil_r by done. cbn [split_aux].
  destruct (rev b) eqn:E; [|by rewrite <- E, rev_involutive].
  apply (f_equal (@rev ascii)) in E. rewrite rev_involutive in E. done.
Qed.

Lemma strip_blanks_around g0 t g2 :
  Forall (fun c => is_space c = true) g0 ->
  Forall (fun c => is_space c = true) g2 ->
  t <> [] -> trimmed t -> strip (g0 ++ t ++ g2) = t.
Proof.
  intros Hg0 Hg2 Hne Ht. unfold strip, rstrip.
  rewrite lstrip_app_blanks by done.
  assert (lstrip (t ++ g2) = t ++ g2) as ->.
  { destruct Ht as [Hh _]. destruct t as [|c t']; [done|].
    cbn [app lstrip]. by rewrite (Hh c t'). }
  rewrite rev_app_distr, lstrip_app_blanks by (by apply Forall_rev).
  rewrite lstrip_trimmed; [apply rev_involutive|].
  destruct Ht as [Hh Hl]. split.
  - intros c s' H. apply (Hl c (rev s')).
    by rewrite <- (rev_involutive t), H.
  - intros c s' H. apply (Hh c (rev s')).
    by rewrite <- (rev_involutive t), H, rev_app_distr.
Qed.

(** X15. White space around and between the two fields of the output of
    [ps] does not matter to [get_metrics]: whatever it is, the result is
    the pair of the two fields read as a float and as an int divided by
    1024.0, or [None] when one of them does not read or the int is
    beyond the floats. *)
Theorem get_metrics_reads_two_fields (ps : str -> result str) (pid : Z)
    (g0 cpu_s g1 rss_s g2 : str) :
  ps (py_str pid) = Ok (g0 ++ cpu_s ++ g1 ++ rss_s ++ g2) ->
  Forall (fun c => is_space c = true) g0 -> field cpu_s -> blanks g1 ->
  field rss_s -> Forall (fun c => is_space c = true) g2 ->
  get_metrics ps pid =
  match py_float cpu_s, py_int rss_s with
  | Ok cpu, Ok rss_kb =>
      match float_of_int rss_kb with
      | Ok x => Ok (Some (cpu, SFdiv prec emax x f1024))
      | Raise _ => Ok None
      end
  | _, _ => Ok None
  end.
Proof.
  intros Hps Hg0 Hc Hg1 Hr Hg2.
  pose proof (get_metrics_cases ps pid) as H. rewrite Hps in H.
  assert (trimmed (cpu_s ++ g1 ++ rss_s)) as Ht.
  { destruct Hc as [Hcne Hcs], Hr as [Hrne Hrs]. split.
    - intros c s' E. destruct cpu_s as [|c' p']; [done|]. injection E as <- _.
      exact (Forall_inv Hcs).
    - intros c s' E. destruct rss_s as [|x r' _] using rev_ind; [done|].
      rewrite !app_assoc in E. apply app_inj_tail in E as [_ <-].
      apply Forall_app in Hrs as [_ Hx]. exact (Forall_inv Hx). }
  replace (g0 ++ cpu_s ++ g1 ++ rss_s ++ g2)
    with (g0 ++ (cpu_s ++ g1 ++ rss_s) ++ g2) in H
    by (by rewrite <- !app_assoc).
  rewrite strip_blanks_around in H; [|done|done| |done].
  2:{ destruct Hc as [Hcne _]. by destruct cpu_s. }
  rewrite split_two_fields in H by done.
  destruct (py_float cpu_s) as [cpu|]; [|done].
  destruct (py_int rss_s) as [rss_kb|]; [|done].
  destruct (float_of_int rss_kb) as [x|]; [by destruct H | done].
Qed.

(** ** The label prompts *)

(** X16. [prompt_label] gives the default for a blank input, and
    otherwise the input without the white space at its ends: a text that
    is not empty and neither begins nor ends with white space. With the
    default [comm (pid)] of [label_wrapper] the label is never empty. *)
Theorem prompt_label_trimmed (input default : str) :
  (strip input = [] -> prompt_label input default = default) /\
  (strip input <> [] ->
   prompt_label input default = strip input /\
   trimmed (prompt_label input default)) /\
  (forall p, prompt_label input (default_label p) <> []).
Proof.
  unfold prompt_label. split; [|split].
  - by intros ->.
  - intros Hne. destruct (strip input) as [|c t'] eqn:E; [done|].
    split; [done|]. cbn [str_or]. rewrite <- E. apply strip_trimmed.
  - intros p. destruct (strip input) as [|c t']; [|done].
    cbn [str_or]. unfold default_label.
    destruct (comm_of p); done.
Qed.

(** ** The further theorems at concrete inputs *)


Lemma selector_returns_two_candidates_witness :
  process_selector scenario_procs [ord "c"; 10; KEY_BACKSPACE; KEY_DOWN; 10]
  = Ok (Return [p30; p20]) /\
  exists a b, [p30; p20] = [a; b] /\ a <> b /\
    a ∈ scenario_procs /\ b ∈ scenario_procs.
Proof.
  assert (process_selector scenario_procs
            [ord "c"; 10; KEY_BACKSPACE; KEY_DOWN; 10]
          = Ok (Return [p30; p20])) as H by reflexivity.
  split; [exact H|].
  exact (proj1 (selector_returns_two_candidates scenario_procs _) _ H).
Defined.

Lemma filter_holds_typed_characters_witness :
  process_selector scenario_procs [ord "c"; ord "C"]
  = Ok (Next {| filter_text := lit "cC"; idx := 0; selected := [] |}) /\
  (length (lit "cC") <= 2)%nat.
Proof.
  assert (process_selector scenario_procs [ord "c"; ord "C"]
          = Ok (Next {| filter_text := lit "cC"; idx := 0; selected := [] |}))
    as H by reflexivity.
  split; [exact H|].
  exact (proj2 (filter_holds_typed_characters scenario_procs _ _ H)).
Defined.

Lemma drawn_rows_in_view_witness :
  1 <= 10 - 5 /\ 0 <= 1 < 3 /\
  exists row, (row, 1) ∈ drawn_rows 10 3 1.
Proof.
  assert (1 <= 10 - 5) as Hh by lia.
  assert (0 <= 1 < 3) as Hi by lia.
  split; [exact Hh|]. split; [exact Hi|].
  exact (proj2 (proj2 (drawn_rows_in_view 10 1 scenario_procs)) Hh Hi).
Defined.

Lemma drawn_line_fits_witness :
  30 <= 40 /\ (length (py_str (pid_of p30)) <= 6)%nat /\
  (length (comm_of p30) <= 18)%nat /\
  drawn_line 40 p30 = format_line 40 p30.
Proof.
  assert (30 <= 40) as Hw by lia.
  assert (length (py_str (pid_of p30)) <= 6)%nat as Hp by (vm_compute; lia).
  assert (length (comm_of p30) <= 18)%nat as Hc by (vm_compute; lia).
  split; [exact Hw|]. split; [exact Hp|]. split; [exact Hc|].
  exact (proj1 (proj2 (drawn_line_fits 40 p30) Hw Hp Hc)).
Defined.

Lemma parse_ps_line_fields_witness :
  parse_ps_line (lit "   23 vim vim  notes.txt ")
  = Ok (Some (23, lit "vim", lit "vim  notes.txt")) /\
  exists pid_s g,
    field pid_s /\ py_int pid_s = Ok 23 /\ blanks g /\ field (lit "vim") /\
    ((strip (lit "   23 vim vim  notes.txt ") = pid_s ++ g ++ lit "vim" /\
      lit "vim  notes.txt" = lit "vim") \/
     (exists g2, blanks g2 /\ lit "vim  notes.txt" <> [] /\
        trimmed (lit "vim  notes.txt") /\
        strip (lit "   23 vim vim  notes.txt ")
        = pid_s ++ g ++ lit "vim" ++ g2 ++ lit "vim  notes.txt")).
Proof.
  assert (parse_ps_line (lit "   23 vim vim  notes.txt ")
          = Ok (Some (23, lit "vim", lit "vim  notes.txt"))) as H by reflexivity.
  split; [exact H|].
  exact (proj1 (parse_ps_line_fields _ _ _ _) H).
Defined.

Lemma list_processes_errors_witness :
  list_processes (Ok output_with_header) 400 = Raise ValueError /\
  select_processes (Ok output_with_header) [10] = Raise ValueError.
Proof.
  assert (list_processes (Ok output_with_header) 400 = Raise ValueError) as H
    by reflexivity.
  split; [exact H|].
  exact (proj2 (proj2 (list_processes_errors (Ok output_with_header) 400))
           ValueError [10] H).
Defined.

Lemma list_processes_sorted_witness :
  list_processes (Ok output_of_five_lines) 400
  = Ok [(450, lit "sh", lit "sh"); (23, lit "vim", lit "vim  notes.txt");
        (1, lit "init", lit "/sbin/init")] /\
  pids_fall [(450, lit "sh", lit "sh"); (23, lit "vim", lit "vim  notes.txt");
             (1, lit "init", lit "/sbin/init")].
Proof.
  assert (list_processes (Ok output_of_five_lines) 400
          = Ok [(450, lit "sh", lit "sh"); (23, lit "vim", lit "vim  notes.txt");
                (1, lit "init", lit "/sbin/init")]) as H by reflexivity.
  split; [exact H|].
  destruct (list_processes_sorted _ _ _ H) as (out & procs & _ & _ & Hfall & _).
  exact Hfall.
Defined.

Lemma trimmed_ends s :
  match s with [] => True | c :: _ => is_space c = false end ->
  match last s with None => True | Some c => is_space c = false end ->
  trimmed s.
Proof.
  intros Hh Hl. split.
  - by intros c s' ->.
  - intros c s' ->. by rewrite last_snoc in Hl.
Qed.

Lemma ps_line_round_trip_witness :
  parse_ps_line (py_str 23 ++ lit " " ++ lit "vim" ++ lit "  " ++
                 lit "vim  notes.txt")
  = Ok (Some (23, lit "vim", lit "vim  notes.txt")).
Proof.
  apply ps_line_round_trip.
  - split; [discriminate | repeat constructor].
  - split; [discriminate | repeat constructor].
  - split; [discriminate | repeat constructor].
  - discriminate.
  - apply trimmed_ends; reflexivity.
Defined.


Lemma series_rows_are_ticks_witness :
  exists s0 s i p,
    series_new 3 = Ok s0 /\ run_ticks 1 2 four_ticks s0 = Ok s /\
    four_ticks !! 1%nat = Some i /\ tick_samples 1 2 i = Ok p /\
    items (t s) !! 0%nat = Some (now i) /\
    items (mem1 s) !! 0%nat = Some p.1.2.
Proof.
  destruct (series_new 3) as [s0|] eqn:Hnew; [|discriminate Hnew].
  destruct (run_ticks 1 2 four_ticks s0) as [s|] eqn:Hrun.
  - assert (0 < length four_ticks `min` Z.to_nat 3)%nat as Hj
      by (vm_compute; lia).
    destruct (series_rows_are_ticks 3 1 2 four_ticks s0 s 0 Hnew Hrun Hj)
      as (i & p & Hi & Hp & Ht & _ & Hm & _).
    exists s0, s, i, p. split; [reflexivity|]. split; [exact Hrun|].
    split; [exact Hi|]. split; [exact Hp|]. split; [exact Ht | exact Hm].
  - exfalso. injection Hnew as <-. vm_compute in Hrun. discriminate Hrun.
Defined.


Lemma get_metrics_reads_two_fields_witness :
  get_metrics (fun _ => Ok (lit "  " ++ lit "1.5" ++ lit "   " ++ lit "2048" ++
                            [chr 10])) 7
  = Ok (Some (round_float 3 (-1), round_float 2 0)).
Proof.
  rewrite (get_metrics_reads_two_fields _ 7 (lit "  ") (lit "1.5") (lit "   ")
             (lit "2048") [chr 10]).
  - vm_compute. reflexivity.
  - reflexivity.
  - repeat constructor.
  - split; [discriminate | repeat constructor].
  - split; [discriminate | repeat constructor].
  - split; [discriminate | repeat constructor].
  - repeat constructor.
Defined.

Lemma prompt_label_trimmed_witness :
  strip (lit "  web server ") <> [] /\
  prompt_label (lit "  web server ") (default_label p30) = lit "web server" /\
  trimmed (prompt_label (lit "  web server ") (default_label p30)).
Proof.
  assert (strip (lit "  web server ") <> []) as H by discriminate.
  split; [exact H|].
  exact (proj1 (proj2 (prompt_label_trimmed (lit "  web server ")
                         (default_label p30))) H).
Defined.
